(* Shallow embedding of the optimisation core of mac-image-optimizer
   (Crunch): job state machine, candidate selection, smart quality
   search, tool runners, atomic writer, run coordinator and the
   watch-folder processed index. *)

From Stdlib Require Import ZArith QArith String Ascii List Lia.
From stdpp Require Import base gmap strings list pretty.

Import ListNotations.
Local Open Scope string_scope.

(** * Common vocabulary *)

(** A thrown JavaScript value: a plain [Error], or the [ToolError] of
    tools/common.ts, which also carries the child's exit code. *)
Inductive ErrorValue :=
| PlainError (msg : string)
| ToolError (msg : string) (exitCode : option Z).

Definition message (e : ErrorValue) : string :=
  match e with PlainError m => m | ToolError m _ => m end.

(** A computation that either returns a value or throws. *)
Inductive Exn (A : Type) : Type :=
| Ok (a : A)
| Throw (e : ErrorValue).
Arguments Ok {A} a.
Arguments Throw {A} e.

Definition exn_bind {A B} (m : Exn A) (k : A -> Exn B) : Exn B :=
  match m with
  | Ok a => k a
  | Throw e => Throw e
  end.

(** [String.prototype.includes]. *)
Fixpoint includes (needle hay : string) : bool :=
  if String.prefix needle hay then true
  else match hay with
       | EmptyString => false
       | String _ rest => includes needle rest
       end.

(** [String.prototype.endsWith]. *)
Definition ends_with (suffix s : string) : bool :=
  let n := String.length s in
  let k := String.length suffix in
  (k <=? n)%nat && String.eqb (substring (n - k) k s) suffix.

Definition ascii_lower (c : ascii) : ascii :=
  let n := nat_of_ascii c in
  if ((65 <=? n) && (n <=? 90))%nat then ascii_of_nat (n + 32) else c.

(** [String.prototype.toLowerCase] on ASCII text. *)
Fixpoint to_lower (s : string) : string :=
  match s with
  | EmptyString => EmptyString
  | String c rest => String (ascii_lower c) (to_lower rest)
  end.

(** A file's content. *)
Definition bytes := list Byte.byte.

(** * core/jobs.ts: [JobStateMachine] *)
Module Jobs.

Inductive JobStatus := queued | running | success | failed | skipped | cancelled.

Definition status_name (s : JobStatus) : string :=
  match s with
  | queued => "queued" | running => "running" | success => "success"
  | failed => "failed" | skipped => "skipped" | cancelled => "cancelled"
  end.

Definition status_eqb (a b : JobStatus) : bool :=
  match a, b with
  | queued, queued | running, running | success, success
  | failed, failed | skipped, skipped | cancelled, cancelled => true
  | _, _ => false
  end.

Inductive Stage :=
  analyzing | decoding | transforming | encoding | writing | verifying | cleaning.

Record JobProgress := { percent : Z; stage : Stage }.

(** [Omit<JobResult, 'status'>]: the part of a result a caller supplies. *)
Record JobResultBody := {
  originalBytes : Z;
  outputBytes : Z;
  bytesSaved : Z;
  warnings : list string;
  totalMs : Z
}.

Record JobResult := { res_status : JobStatus; res_body : JobResultBody }.

Record JobEvent := {
  ev_status : JobStatus;
  ev_progress : option JobProgress;
  ev_result : option JobResult
}.

(** The private fields of the class, plus the [change] events it has
    emitted so far, oldest first. *)
Record Job := {
  status : JobStatus;
  progress : JobProgress;
  result : option JobResult;
  emitted : list JobEvent
}.

Definition new_job : Job :=
  {| status := queued; progress := {| percent := 0; stage := analyzing |};
     result := None; emitted := [] |}.

Definition set_status (s : JobStatus) (j : Job) : Job :=
  {| status := s; progress := progress j; result := result j; emitted := emitted j |}.
Definition set_progress (p : JobProgress) (j : Job) : Job :=
  {| status := status j; progress := p; result := result j; emitted := emitted j |}.
Definition set_result (r : JobResult) (j : Job) : Job :=
  {| status := status j; progress := progress j; result := Some r; emitted := emitted j |}.

Definition emitEvent (j : Job) : Job :=
  let ev := {| ev_status := status j;
               ev_progress := if status_eqb (status j) running then Some (progress j) else None;
               ev_result := result j |} in
  {| status := status j; progress := progress j; result := result j;
     emitted := emitted j ++ [ev] |}.

Definition start (j : Job) : Exn Job :=
  if negb (status_eqb (status j) queued)
  then Throw (PlainError ("Cannot start job in state: " ++ status_name (status j)))
  else Ok (emitEvent (set_status running j)).

Definition updateProgress (pc : Z) (sg : Stage) (j : Job) : Job :=
  if negb (status_eqb (status j) running) then j
  else emitEvent (set_progress {| percent := pc; stage := sg |} j).

Definition succeed (r : JobResultBody) (j : Job) : Job :=
  if negb (status_eqb (status j) running) then j
  else emitEvent (set_result {| res_status := success; res_body := r |} (set_status success j)).

Definition fail (r : JobResultBody) (j : Job) : Job :=
  if negb (status_eqb (status j) running) && negb (status_eqb (status j) queued) then j
  else emitEvent (set_result {| res_status := failed; res_body := r |} (set_status failed j)).

Definition cancel (j : Job) : Job :=
  if status_eqb (status j) success || status_eqb (status j) failed
     || status_eqb (status j) skipped then j
  else emitEvent (set_status cancelled j).

Definition skip (reason : string) (ob : Z) (j : Job) : Job :=
  if negb (status_eqb (status j) queued) && negb (status_eqb (status j) running) then j
  else emitEvent
         (set_result {| res_status := skipped;
                        res_body := {| originalBytes := ob; outputBytes := ob; bytesSaved := 0;
                                       warnings := [reason]; totalMs := 0 |} |}
            (set_status skipped j)).

(** The public mutating methods. *)
Inductive Method :=
| MStart
| MUpdateProgress (pc : Z) (sg : Stage)
| MSucceed (r : JobResultBody)
| MFail (r : JobResultBody)
| MCancel
| MSkip (reason : string) (ob : Z).

Definition call (m : Method) (j : Job) : Exn Job :=
  match m with
  | MStart => start j
  | MUpdateProgress pc sg => Ok (updateProgress pc sg j)
  | MSucceed r => Ok (succeed r j)
  | MFail r => Ok (fail r j)
  | MCancel => Ok (cancel j)
  | MSkip reason ob => Ok (skip reason ob j)
  end.

Definition terminal (s : JobStatus) : bool :=
  match s with success | failed | skipped | cancelled => true | _ => false end.

End Jobs.

(** * optimizer/types + candidates.ts: settings and candidate policy *)
Module Candidates.

Inductive ImgFormat := jpeg | png | webp.

Definition format_eqb (a b : ImgFormat) : bool :=
  match a, b with
  | jpeg, jpeg | png, png | webp, webp => true
  | _, _ => false
  end.

Inductive OutputMode := replace | subfolder.
Inductive ExportPreset := original | web | design.
Inductive RunMode := optimize | convertWebp | optimizeAndWebp | smart | responsive.
Inductive QualityMode := auto | fixed.
Inductive SmartTarget := visually_lossless | high | balanced_target | small | custom.
Inductive Speed := fast | balanced_speed | thorough.

(** The fields of [EffectiveSettings] the modelled functions read. *)
Record EffectiveSettings := {
  outputMode : OutputMode;
  exportPreset : ExportPreset;
  namingPattern : string;
  runMode : RunMode;
  keepMetadata : bool;
  allowLargerOutput : bool;
  aggressivePng : bool;
  reencodeExistingWebp : bool;
  replaceWithWebp : bool;
  confirmDangerousWebpReplace : bool;
  deleteOriginalAfterWebp : bool;
  jpegQualityMode : QualityMode;
  jpegQuality : Z;
  webpQualityMode : QualityMode;
  webpQuality : Z;
  qualityGuardrailSsim : bool;
  smartCompressionMode : bool;
  smartTarget : SmartTarget;
  qualityGuardrail : Q;
  optimizationSpeed : Speed
}.

Definition SSIM_THRESHOLD_NORMAL : Q := 995 # 1000.
Definition SSIM_THRESHOLD_AGGRESSIVE : Q := 99 # 100.
Definition JPEG_AUTO_QUALITIES : list Z := [88; 84; 80; 76; 72]%Z.
Definition WEBP_AUTO_QUALITIES : list Z := [82; 78; 74; 70]%Z.

Definition getSsimThreshold (s : EffectiveSettings) : Q :=
  if negb (qualityGuardrailSsim s) then 0
  else if aggressivePng s then SSIM_THRESHOLD_AGGRESSIVE else SSIM_THRESHOLD_NORMAL.

Definition getJpegQualities (s : EffectiveSettings) : list Z :=
  match jpegQualityMode s with fixed => [jpegQuality s] | auto => JPEG_AUTO_QUALITIES end.

Definition getWebpQualities (s : EffectiveSettings) : list Z :=
  match webpQualityMode s with fixed => [webpQuality s] | auto => WEBP_AUTO_QUALITIES end.

Record PngRange := { rmin : Z; rmax : Z; rlabel : string }.

Definition getPngQualityRanges (s : EffectiveSettings) : list PngRange :=
  if aggressivePng s then
    [ {| rmin := 80; rmax := 95; rlabel := "80-95" |};
      {| rmin := 75; rmax := 90; rlabel := "75-90" |};
      {| rmin := 70; rmax := 85; rlabel := "70-85" |} ]
  else [ {| rmin := 80; rmax := 95; rlabel := "80-95" |} ].

Definition shouldSkipIfLarger (originalBytes candidateBytes : Z) (s : EffectiveSettings) : bool :=
  negb (allowLargerOutput s) && (originalBytes <=? candidateBytes)%Z.

Definition shouldCreateWebp (m : RunMode) : bool :=
  match m with convertWebp | optimizeAndWebp => true | _ => false end.

Definition shouldOptimizeOriginal (m : RunMode) : bool :=
  match m with optimize | optimizeAndWebp => true | _ => false end.

Definition getOutputFormatForPath (inputPath : string) : option ImgFormat :=
  let lower := to_lower inputPath in
  if ends_with ".jpg" lower || ends_with ".jpeg" lower then Some jpeg
  else if ends_with ".tif" lower || ends_with ".tiff" lower then Some jpeg
  else if ends_with ".png" lower then Some png
  else if ends_with ".webp" lower then Some webp
  else None.

End Candidates.

(** * smartSearch.ts: [findOptimalQuality] *)
Module Smart.
Import Candidates.

Record MetricResult := { mssim : Q; edgeSsim : Q; bandingRisk : Q }.
Record SearchResult := { quality : Z; metrics : MetricResult; buffer : bytes }.

Definition TARGET_THRESHOLDS (t : SmartTarget) : Q :=
  match t with
  | visually_lossless => 999 # 1000
  | high => 995 # 1000
  | balanced_target => 99 # 100
  | small => 98 # 100
  | custom => 99 # 100
  end.

Definition targetThreshold (s : EffectiveSettings) : Q :=
  match smartTarget s with
  | custom => qualityGuardrail s / 100
  | t => TARGET_THRESHOLDS t
  end.

Definition iterations (s : EffectiveSettings) : nat :=
  match optimizationSpeed s with fast => 4 | balanced_speed => 6 | _ => 8 end.

Definition initial_min (isPhoto : bool) (format : ImgFormat) : Z :=
  if negb isPhoto && format_eqb format jpeg then 70 else 10.

Definition initial_max : Z := 95.

(** [candidate.metrics.mssim >= targetThreshold && candidate.metrics.bandingRisk < 0.05] *)
Definition passes (thr : Q) (c : SearchResult) : bool :=
  Qle_bool thr (mssim (metrics c)) && negb (Qle_bool (5 # 100) (bandingRisk (metrics c))).

Section Search.
(** The encoder and metric engine: [measure i q] is what encoding at
    quality [q] on iteration [i] yields (None when [encodeAndMeasure]
    catches an error). *)
Variable measure : nat -> Z -> option (MetricResult * bytes).

Definition encodeAndMeasure (i : nat) (q : Z) : option SearchResult :=
  match measure i q with
  | Some (m, b) => Some {| quality := q; metrics := m; buffer := b |}
  | None => None
  end.

(** The [for] loop from iteration [i]; [fuel] iterations remain.
    Returns [best] together with the qualities encoded, in order. *)
Fixpoint search_loop (thr : Q) (fuel i : nat) (mn mx : Z) (best : option SearchResult)
  : option SearchResult * list Z :=
  match fuel with
  | O => (best, [])
  | S fuel' =>
      let q := ((mn + mx) / 2)%Z in
      let '(best', mn', mx') :=
        match encodeAndMeasure i q with
        | Some c => if passes thr c then (Some c, mn, (q - 1)%Z) else (best, (q + 1)%Z, mx)
        | None => (best, (q + 1)%Z, mx)
        end in
      if (mx' <? mn')%Z then (best', [q])
      else let '(r, qs) := search_loop thr fuel' (S i) mn' mx' best' in (r, q :: qs)
  end.

Definition findOptimalQuality_traced (isPhoto : bool) (s : EffectiveSettings) (format : ImgFormat)
  : option SearchResult * list Z :=
  search_loop (targetThreshold s) (iterations s) 0 (initial_min isPhoto format) initial_max None.

Definition findOptimalQuality (isPhoto : bool) (s : EffectiveSettings) (format : ImgFormat)
  : option SearchResult :=
  fst (findOptimalQuality_traced isPhoto s format).

End Search.
End Smart.

(** * pipeline.ts, tools/*.ts, io/paths.ts: candidates, selection, backups *)
Module Pipeline.
Import Candidates.

Record CandidateResult := {
  c_buffer : bytes;
  c_bytes : Z;
  qualityLabel : string;
  c_format : ImgFormat;
  c_ssim : option Q
}.

Definition Qltb (x y : Q) : bool := negb (Qle_bool y x).

(** What the outside world does for one candidate slot (one temp output
    file): whether each binary is found under resources/bin, how each
    tool run ends (its [ensureParentDir] and [runTool]; None is exit 0),
    what [readCandidate] reads (buffer, [stat.size]), and what
    [computeSsim] against the original returns. *)
Record Attempt := {
  found : string -> bool;
  run : string -> option ErrorValue;
  read : Exn (bytes * Z);
  similarity : Exn Q
}.

Definition missingBinary (binary : string) : ErrorValue :=
  PlainError ("Missing optimizer binary: " ++ binary ++ ". Expected under resources/bin.").

Definition resolveToolPath (a : Attempt) (binary : string) : Exn unit :=
  if found a binary then Ok tt else Throw (missingBinary binary).

Definition runTool (a : Attempt) (binary : string) : Exn unit :=
  match run a binary with None => Ok tt | Some e => Throw e end.

Definition runOxipng (a : Attempt) : Exn unit :=
  exn_bind (resolveToolPath a "oxipng") (fun _ => runTool a "oxipng").

Definition encodeMozjpeg (a : Attempt) : Exn unit :=
  exn_bind (resolveToolPath a "cjpeg") (fun _ => runTool a "cjpeg").

Definition encodeCwebp (a : Attempt) : Exn unit :=
  exn_bind (resolveToolPath a "cwebp") (fun _ => runTool a "cwebp").

Definition pngquantSkipped : ErrorValue :=
  PlainError "Pngquant skipped: output would be larger than input".

Definition runPngquant (a : Attempt) : Exn unit :=
  exn_bind (resolveToolPath a "pngquant") (fun _ =>
    match runTool a "pngquant" with
    | Throw (ToolError m (Some code)) =>
        if (code =? 99)%Z then Throw pngquantSkipped else Throw (ToolError m (Some code))
    | r => r
    end).

Definition evaluateCandidate (needsSsim : bool) (ssimThreshold : Q) (a : Attempt)
    (format : ImgFormat) (label : string) : Exn (option CandidateResult) :=
  exn_bind (read a) (fun '(buf, size) =>
    let result := {| c_buffer := buf; c_bytes := size; qualityLabel := label;
                     c_format := format; c_ssim := None |} in
    if negb needsSsim then Ok (Some result)
    else exn_bind (similarity a) (fun sim =>
      if Qltb sim ssimThreshold then Ok None
      else Ok (Some {| c_buffer := buf; c_bytes := size; qualityLabel := label;
                       c_format := format; c_ssim := Some sim |}))).

(** The [catch] around each candidate: a missing binary is re-thrown,
    any other error drops the candidate. *)
Definition candidate_catch (r : Exn (option CandidateResult)) : Exn (option CandidateResult) :=
  match r with
  | Ok o => Ok o
  | Throw e => if includes "Missing optimizer binary" (message e) then Throw e else Ok None
  end.

(** [candidates.push(accepted)] after one slot of a ladder. *)
Definition push_slot (acc : Exn (list CandidateResult)) (slot : Exn (option CandidateResult))
  : Exn (list CandidateResult) :=
  exn_bind acc (fun cs => exn_bind (candidate_catch slot) (fun o => Ok (app cs (option_list o)))).

Definition ladder_step (thr : Q) (a : Attempt) (format : ImgFormat) (q : Z)
  : Exn (option CandidateResult) :=
  exn_bind (match format with webp => encodeCwebp a | _ => encodeMozjpeg a end) (fun _ =>
    evaluateCandidate true thr a format ("q" ++ pretty q)).

(** The smart branch: [findOptimalQuality]'s result for this file. *)
Definition smart_candidates (format : ImgFormat) (r : option Smart.SearchResult)
  : list CandidateResult :=
  match r with
  | Some res => [ {| c_buffer := Smart.buffer res;
                     c_bytes := Z.of_nat (length (Smart.buffer res));
                     qualityLabel := "smart-q" ++ pretty (Smart.quality res);
                     c_format := format;
                     c_ssim := Some (Smart.mssim (Smart.metrics res)) |} ]
  | None => []
  end.

Definition buildJpegCandidates (s : EffectiveSettings) (smart : option Smart.SearchResult)
    (slot : Z -> Attempt) : Exn (list CandidateResult) :=
  if smartCompressionMode s then Ok (smart_candidates jpeg smart)
  else let thr := getSsimThreshold s in
       fold_left (fun acc q => push_slot acc (ladder_step thr (slot q) jpeg q))
         (getJpegQualities s) (Ok []).

Definition buildWebpCandidates (s : EffectiveSettings) (smart : option Smart.SearchResult)
    (slot : Z -> Attempt) : Exn (list CandidateResult) :=
  if smartCompressionMode s then Ok (smart_candidates webp smart)
  else let thr := getSsimThreshold s in
       fold_left (fun acc q => push_slot acc (ladder_step thr (slot q) webp q))
         (getWebpQualities s) (Ok []).

Definition png_lossless_step (thr : Q) (a : Attempt) : Exn (option CandidateResult) :=
  exn_bind (runOxipng a) (fun _ => evaluateCandidate false thr a png "oxipng-lossless").

(** pngquant into one temp file, then oxipng over it into another. *)
Definition png_range_step (thr : Q) (a : Attempt) (r : PngRange) : Exn (option CandidateResult) :=
  exn_bind (runPngquant a) (fun _ =>
    exn_bind (runOxipng a) (fun _ =>
      evaluateCandidate true thr a png ("pngquant-" ++ rlabel r))).

Definition buildPngCandidates (s : EffectiveSettings) (lossless : Attempt)
    (slot : PngRange -> Attempt) : Exn (list CandidateResult) :=
  let thr := getSsimThreshold s in
  fold_left (fun acc r => push_slot acc (png_range_step thr (slot r) r))
    (getPngQualityRanges s) (push_slot (Ok []) (png_lossless_step thr lossless)).

(** [[...candidates].sort((a, b) => a.bytes - b.bytes)]: Array.prototype.sort
    is stable, as is this insertion sort. *)
Fixpoint insert_by_bytes (c : CandidateResult) (l : list CandidateResult) : list CandidateResult :=
  match l with
  | [] => [c]
  | d :: rest => if (c_bytes c <=? c_bytes d)%Z then c :: d :: rest else d :: insert_by_bytes c rest
  end.

Definition sort_by_bytes (l : list CandidateResult) : list CandidateResult :=
  fold_right insert_by_bytes [] l.

Definition pickBest (candidates : list CandidateResult) : option CandidateResult :=
  match candidates with
  | [] => None
  | _ => head (sort_by_bytes candidates)
  end.

End Pipeline.

(** * pipeline.ts: the optimise and WebP actions and [processFile] *)
Module Actions.
Import Candidates Pipeline.

(** [path.basename] for '/'-separated paths. *)
Fixpoint basename_acc (s acc : string) : string :=
  match s with
  | EmptyString => acc
  | String c rest =>
      if Ascii.eqb c "/"%char then basename_acc rest EmptyString
      else basename_acc rest (acc ++ String c EmptyString)
  end.
Definition basename (s : string) : string := basename_acc s EmptyString.

Fixpoint replace_char (c d : ascii) (s : string) : string :=
  match s with
  | EmptyString => EmptyString
  | String x rest => String (if Ascii.eqb x c then d else x) (replace_char c d rest)
  end.

(** [createBackupFilePath]: [path.join] is written as concatenation
    with the separator. *)
Definition createBackupFilePath (backupDir originalPath : string) : string :=
  let safeName := replace_char ":"%char "_"%char (replace_char "/"%char "_"%char originalPath) in
  backupDir ++ "/" ++ safeName ++ "-" ++ basename originalPath.

Record BackupRecord := {
  originalPath : string;
  backupPath : string;
  removeOnRestore : option string
}.

(** The per-file [backupCache] and [backups] of [processFile], and the
    file system (path to content). *)
Record PState := {
  cache : gmap string string;
  records : list BackupRecord;
  files : gmap string bytes
}.

Definition ensureBackup_copy (backupDir originalPath : string) (io : option ErrorValue)
    (st : PState) : Exn string * PState :=
  let bp := createBackupFilePath backupDir originalPath in
  match io with
  | Some e => (Throw e, st)
  | None =>
      match files st !! originalPath with
      | None => (Throw (PlainError ("ENOENT: no such file or directory, copyfile '" ++ originalPath ++ "'")), st)
      | Some b =>
          (Ok bp, {| cache := <[originalPath := bp]> (cache st);
                     records := (records st ++ [ {| originalPath := originalPath; backupPath := bp;
                                                    removeOnRestore := None |} ])%list;
                     files := <[bp := b]> (files st) |})
      end
  end.

(** [io] is how the [mkdir] and [copyFile] of this call end. *)
Definition ensureBackup (backupDir originalPath : string) (io : option ErrorValue)
    (st : PState) : Exn string * PState :=
  match cache st !! originalPath with
  | Some existing =>
      if String.eqb existing "" then ensureBackup_copy backupDir originalPath io st
      else (Ok existing, st)
  | None => ensureBackup_copy backupDir originalPath io st
  end.

Inductive ActionStatus := a_success | a_skipped | a_failed.

Record ActionDecision := {
  ad_status : ActionStatus;
  ad_outputPath : option string;
  ad_originalBytes : Z;
  ad_outputBytes : Z;
  ad_bytesSaved : Z;
  ad_reason : option string
}.

Definition skipDecision (ob : Z) (reason : string) : ActionDecision :=
  {| ad_status := a_skipped; ad_outputPath := None; ad_originalBytes := ob;
     ad_outputBytes := ob; ad_bytesSaved := 0; ad_reason := Some reason |}.

Record Applied := { ap_targetPath : string; ap_buffer : bytes; ap_format : ImgFormat }.

(** What the outside world does during one action: the encoders and
    metric engine per candidate slot, and how the backup copy, the
    validated write and the deletion of the original end. *)
Record ActionWorld := {
  smartResult : option Smart.SearchResult;
  ladderSlot : Z -> Attempt;
  losslessSlot : Attempt;
  rangeSlot : PngRange -> Attempt;
  backupIO : option ErrorValue;
  writeIO : option ErrorValue;
  rmIO : option ErrorValue
}.

(** [writeValidatedAtomic]: temp write, format validation and rename;
    [io] is the error one of them throws, if any. *)
Definition writeValidatedAtomic (targetPath : string) (buf : bytes) (io : option ErrorValue)
    (st : PState) : Exn unit * PState :=
  match io with
  | Some e => (Throw e, st)
  | None => (Ok tt, {| cache := cache st; records := records st;
                       files := <[targetPath := buf]> (files st) |})
  end.

Definition replace_tif_ext (p : string) : string :=
  let l := to_lower p in
  let n := String.length p in
  if ends_with ".tiff" l then substring 0 (n - 5) p ++ ".jpg"
  else if ends_with ".tif" l then substring 0 (n - 4) p ++ ".jpg"
  else p.

Definition is_subfolder (m : OutputMode) : bool :=
  match m with subfolder => true | replace => false end.

Section Actions.
(** The path planner, the sharp re-encoding of the [design] export
    preset, and the naming template are outside these properties. *)
Variable outputPathForOriginal : string -> string -> OutputMode -> string.
Variable outputPathForWebp : string -> string -> OutputMode -> string.
Variable designPreset : string -> string -> bytes -> ImgFormat -> Exn Applied.
Variable resolveOutputPathFromTemplate : string -> Applied -> string -> bool -> Exn string.

Definition applyExportPreset (s : EffectiveSettings) (inputPath targetPath : string)
    (buf : bytes) (format : ImgFormat) : Exn Applied :=
  match exportPreset s with
  | original | web => Ok {| ap_targetPath := targetPath; ap_buffer := buf; ap_format := format |}
  | design => designPreset inputPath targetPath buf format
  end.

(** Shared tail of both actions, from the export preset to the write. *)
Definition finish_action (s : EffectiveSettings) (inputPath : string) (ob : Z) (applied : Applied)
    (before_write : PState -> Exn unit * PState) (w : ActionWorld) (st : PState)
  : Exn (ActionDecision * string) * PState :=
  let outLen := Z.of_nat (length (ap_buffer applied)) in
  if shouldSkipIfLarger ob outLen s then (Ok (skipDecision ob "Skipped (larger)", ""), st)
  else
    match resolveOutputPathFromTemplate inputPath applied (namingPattern s) (is_subfolder (outputMode s)) with
    | Throw e => (Throw e, st)
    | Ok finalNamedPath =>
        match before_write st with
        | (Throw e, st1) => (Throw e, st1)
        | (Ok _, st1) =>
            match writeValidatedAtomic finalNamedPath (ap_buffer applied) (writeIO w) st1 with
            | (Throw e, st2) => (Throw e, st2)
            | (Ok _, st2) =>
                (Ok ({| ad_status := a_success; ad_outputPath := Some finalNamedPath;
                        ad_originalBytes := ob; ad_outputBytes := outLen;
                        ad_bytesSaved := Z.max 0 (ob - outLen); ad_reason := None |},
                     finalNamedPath), st2)
            end
        end
    end.

Definition backup_step (backupDir : option string) (msg inputPath : string) (w : ActionWorld)
    (st : PState) : Exn unit * PState :=
  match backupDir with
  | None => (Throw (PlainError msg), st)
  | Some bd =>
      match ensureBackup bd inputPath (backupIO w) st with
      | (Ok _, st') => (Ok tt, st')
      | (Throw e, st') => (Throw e, st')
      end
  end.

(** The candidate list of [runOptimizeAction]'s [try] block. *)
Definition build_candidates (s : EffectiveSettings) (type : ImgFormat) (w : ActionWorld)
  : Exn (list CandidateResult) :=
  match type with
  | jpeg => buildJpegCandidates s (smartResult w) (ladderSlot w)
  | png => buildPngCandidates s (losslessSlot w) (rangeSlot w)
  | webp => if reencodeExistingWebp s
            then buildWebpCandidates s (smartResult w) (ladderSlot w) else Ok []
  end.

Definition runOptimizeAction (inputPath : string) (originalBuffer : bytes) (s : EffectiveSettings)
    (commonRoot : string) (backupDir : option string) (w : ActionWorld) (st : PState)
  : Exn ActionDecision * PState :=
  let ob := Z.of_nat (length originalBuffer) in
  match getOutputFormatForPath inputPath with
  | None => (Ok (skipDecision ob "Skipped (unsupported)"), st)
  | Some type =>
      match build_candidates s type w with
      | Throw e => (Ok (skipDecision ob (message e)), st)
      | Ok candidates =>
          if format_eqb type webp && negb (reencodeExistingWebp s)
          then (Ok (skipDecision ob "Skipped existing WebP"), st)
          else
            match pickBest candidates with
            | None => (Ok (skipDecision ob "No candidate met quality threshold"), st)
            | Some best =>
                let outputPath := outputPathForOriginal inputPath commonRoot (outputMode s) in
                let finalOutputPath :=
                  if is_subfolder (outputMode s)
                     && (ends_with ".tif" (to_lower inputPath) || ends_with ".tiff" (to_lower inputPath))
                  then replace_tif_ext outputPath else outputPath in
                match applyExportPreset s inputPath finalOutputPath (c_buffer best) type with
                | Throw e => (Throw e, st)
                | Ok applied =>
                    let before_write :=
                      match outputMode s with
                      | replace => backup_step backupDir "Backup directory required for replace mode" inputPath w
                      | subfolder => fun st0 => (Ok tt, st0)
                      end in
                    match finish_action s inputPath ob applied before_write w st with
                    | (Ok (d, _), st') => (Ok d, st')
                    | (Throw e, st') => (Throw e, st')
                    end
                end
            end
      end
  end.

Fixpoint mark_remove_on_restore (inputPath target : string) (rs : list BackupRecord) : list BackupRecord :=
  match rs with
  | [] => []
  | r :: rest =>
      if String.eqb (originalPath r) inputPath
      then {| originalPath := originalPath r; backupPath := backupPath r;
              removeOnRestore := Some target |} :: rest
      else r :: mark_remove_on_restore inputPath target rest
  end.

Definition runWebpAction (inputPath : string) (originalBuffer : bytes) (s : EffectiveSettings)
    (commonRoot : string) (backupDir : option string) (w : ActionWorld) (st : PState)
  : Exn ActionDecision * PState :=
  let ob := Z.of_nat (length originalBuffer) in
  match getOutputFormatForPath inputPath with
  | None => (Ok (skipDecision ob "Skipped (unsupported)"), st)
  | Some type =>
      if format_eqb type webp && negb (reencodeExistingWebp s)
      then (Ok (skipDecision ob "Skipped existing WebP"), st)
      else
        match buildWebpCandidates s (smartResult w) (ladderSlot w) with
        | Throw e => (Ok (skipDecision ob (message e)), st)
        | Ok candidates =>
            match pickBest candidates with
            | None => (Ok (skipDecision ob "No WebP candidate met quality threshold"), st)
            | Some best =>
                let dangerousReplace :=
                  negb (is_subfolder (outputMode s)) && replaceWithWebp s
                  && confirmDangerousWebpReplace s in
                let '(rb, st1) :=
                  if dangerousReplace
                  then backup_step backupDir "Backup directory required for dangerous replace mode" inputPath w st
                  else (Ok tt, st) in
                match rb with
                | Throw e => (Throw e, st1)
                | Ok _ =>
                    let outputPath :=
                      if dangerousReplace then outputPathForWebp inputPath commonRoot replace
                      else outputPathForWebp inputPath commonRoot (outputMode s) in
                    match applyExportPreset s inputPath outputPath (c_buffer best) webp with
                    | Throw e => (Throw e, st1)
                    | Ok applied =>
                        match finish_action s inputPath ob applied (fun st0 => (Ok tt, st0)) w st1 with
                        | (Throw e, st2) => (Throw e, st2)
                        | (Ok (d, finalNamedPath), st2) =>
                            if negb (match ad_status d with a_success => true | _ => false end)
                            then (Ok d, st2)
                            else if dangerousReplace && deleteOriginalAfterWebp s then
                              let st3 := {| cache := cache st2;
                                            records := mark_remove_on_restore inputPath finalNamedPath (records st2);
                                            files := files st2 |} in
                              match rmIO w with
                              | Some e => (Throw e, st3)
                              | None => (Ok d, {| cache := cache st3; records := records st3;
                                                  files := delete inputPath (files st3) |})
                              end
                            else (Ok d, st2)
                        end
                    end
                end
            end
        end
  end.

Record PipelineFileResult := {
  pf_originalBytes : Z;
  optimised : option ActionDecision;
  webpResult : option ActionDecision;
  backups : list BackupRecord;
  pf_status : ActionStatus
}.

Definition is_success (a : option ActionDecision) : bool :=
  match a with Some d => match ad_status d with a_success => true | _ => false end | None => false end.

(** [processFile] for the optimise and WebP run modes (the responsive
    action writes no backups and is not modelled): a fresh backup cache
    and record list, shared by both actions. *)
Definition processFile (inputPath : string) (s : EffectiveSettings) (commonRoot : string)
    (backupDir : option string) (wOpt wWebp : ActionWorld) (fs : gmap string bytes)
  : Exn PipelineFileResult * gmap string bytes :=
  match fs !! inputPath with
  | None => (Throw (PlainError ("ENOENT: no such file or directory, open '" ++ inputPath ++ "'")), fs)
  | Some originalBuffer =>
      let st0 := {| cache := ∅; records := []; files := fs |} in
      let '(r1, st1) :=
        if shouldOptimizeOriginal (runMode s)
        then match runOptimizeAction inputPath originalBuffer s commonRoot backupDir wOpt st0 with
             | (Ok d, st') => (Ok (Some d), st')
             | (Throw e, st') => (Throw e, st')
             end
        else (Ok None, st0) in
      match r1 with
      | Throw e => (Throw e, files st1)
      | Ok opt =>
          let '(r2, st2) :=
            if shouldCreateWebp (runMode s)
            then match runWebpAction inputPath originalBuffer s commonRoot backupDir wWebp st1 with
                 | (Ok d, st') => (Ok (Some d), st')
                 | (Throw e, st') => (Throw e, st')
                 end
            else (Ok None, st1) in
          match r2 with
          | Throw e => (Throw e, files st2)
          | Ok wb =>
              (Ok {| pf_originalBytes := Z.of_nat (length originalBuffer);
                     optimised := opt; webpResult := wb; backups := records st2;
                     pf_status := if is_success opt || is_success wb then a_success else a_skipped |},
               files st2)
          end
      end
  end.

End Actions.
End Actions.

(** * adapters/fs/atomicWrite.ts: [atomicWrite] *)
Module AtomicWrite.
Import Candidates.

Record WriteOptions := {
  backupDir : option string;
  expectedFormat : option ImgFormat;
  skipValidation : bool
}.

Record WriteResult := {
  success : bool;
  path : string;
  backupPath : option string;
  error : option string
}.

(** How each file-system call of one invocation ends: [writeIO] gives
    the error and how many bytes reached the temp file before it;
    [sharpFormat] is what [sharp(tmp).metadata()] reports for the
    content it reads (or throws). *)
Record FsWorld := {
  mkdirIO : option ErrorValue;
  writeIO : option (ErrorValue * nat);
  statIO : option ErrorValue;
  sharpFormat : bytes -> Exn (option ImgFormat);
  backupMkdirIO : option ErrorValue;
  copyIO : option ErrorValue;
  renameIO : option ErrorValue;
  rmIO : option ErrorValue
}.

Definition format_name (f : option ImgFormat) : string :=
  match f with
  | Some jpeg => "jpeg" | Some png => "png" | Some webp => "webp" | None => "undefined"
  end.

(** [`${targetPath}.${Date.now()}.${random}.tmp`] *)
Definition tmpPathFor (targetPath stamp rand : string) : string :=
  targetPath ++ "." ++ stamp ++ "." ++ rand ++ ".tmp".

Definition backupPathFor (bd targetPath : string) : string :=
  let safeName := Actions.replace_char ":"%char "_"%char (Actions.replace_char "/"%char "_"%char targetPath) in
  bd ++ "/" ++ safeName ++ "-" ++ Actions.basename targetPath ++ ".bak".

(** The [try] block, steps 1 to 5; on success returns [backupPath]. *)
Definition try_block (targetPath tmpPath : string) (buffer : bytes) (options : WriteOptions)
    (w : FsWorld) (fs : gmap string bytes) : Exn (option string) * gmap string bytes :=
  (* 1. mkdir of the target directory *)
  match mkdirIO w with Some e => (Throw e, fs) | None =>
  (* 2. write the temp file *)
  match writeIO w with
  | Some (e, k) => (Throw e, <[tmpPath := firstn k buffer]> fs)
  | None =>
  let fs1 := <[tmpPath := buffer]> fs in
  (* 3. quick verification *)
  let verified : option ErrorValue :=
    if skipValidation options then None
    else match statIO w with
         | Some e => Some e
         | None =>
             if (length buffer =? 0)%nat
             then Some (PlainError "Verification failed: written file is empty")
             else match expectedFormat options with
                  | None => None
                  | Some f =>
                      match sharpFormat w buffer with
                      | Throw e => Some e
                      | Ok got =>
                          match got with
                          | Some g => if format_eqb g f then None
                                      else Some (PlainError ("Verification failed: expected " ++ format_name (Some f) ++ ", got " ++ format_name got))
                          | None => Some (PlainError ("Verification failed: expected " ++ format_name (Some f) ++ ", got " ++ format_name got))
                          end
                      end
                  end
         end in
  match verified with Some e => (Throw e, fs1) | None =>
  (* 4. backup of an existing target *)
  let backup : Exn (option string) * gmap string bytes :=
    match fs1 !! targetPath, backupDir options with
    | Some old, Some bd =>
        let bp := backupPathFor bd targetPath in
        match backupMkdirIO w with Some e => (Throw e, fs1) | None =>
        match copyIO w with Some e => (Throw e, fs1) | None =>
          (Ok (Some bp), <[bp := old]> fs1) end end
    | _, _ => (Ok None, fs1)
    end in
  match backup with
  | (Throw e, fs2) => (Throw e, fs2)
  | (Ok bp, fs2) =>
  (* 5. rename the temp file over the target *)
  match renameIO w with Some e => (Throw e, fs2) | None =>
    match fs2 !! tmpPath with
    | Some content => (Ok bp, <[targetPath := content]> (delete tmpPath fs2))
    | None => (Throw (PlainError "ENOENT: no such file or directory, rename"), fs2)
    end
  end
  end
  end
  end
  end.

Definition atomicWrite (targetPath : string) (buffer : bytes) (options : WriteOptions)
    (stamp rand : string) (w : FsWorld) (fs : gmap string bytes) : WriteResult * gmap string bytes :=
  let tmpPath := tmpPathFor targetPath stamp rand in
  match try_block targetPath tmpPath buffer options w fs with
  | (Ok bp, fs') => ({| success := true; path := targetPath; backupPath := bp; error := None |}, fs')
  | (Throw e, fs') =>
      (* best-effort removal of the temp file; its own failure is ignored *)
      let fs'' := match rmIO w with None => delete tmpPath fs' | Some _ => fs' end in
      ({| success := false; path := targetPath; backupPath := None; error := Some (message e) |}, fs'')
  end.

End AtomicWrite.

(** * core/runService: [executeRun] counters and summary *)
Module Run.
Import Candidates Actions.

(** The responsive action's status and its derivatives' sizes. *)
Record ResponsiveOutcome := { rs_status : ActionStatus; rs_sizes : list Z }.

Inductive WorkerResponse :=
| RespFailed (inputPath msg : string)
| RespOk (inputPath : string) (originalBytes : Z) (optimised webp : option ActionDecision)
         (responsiveRes : option ResponsiveOutcome).

Inductive FileStatus := Processing | Done | Skipped | Failed | Cancelled.

Definition actionForMode (mode : RunMode) (o w : option ActionDecision) : option ActionDecision :=
  match mode with
  | optimize => o
  | convertWebp => w
  | responsive => None
  | _ => match w with Some _ => w | None => o end
  end.

Definition inferFileStatus (mode : RunMode) (o w : option ActionDecision)
    (r : option ResponsiveOutcome) : FileStatus :=
  let primary : option ActionStatus :=
    match mode with
    | convertWebp => option_map ad_status w
    | optimize => option_map ad_status o
    | responsive => option_map rs_status r
    | _ => option_map ad_status (match w with Some _ => w | None => o end)
    end in
  match primary with
  | None => Skipped
  | Some a_failed => Failed
  | Some a_skipped => Skipped
  | Some a_success => Done
  end.

Record Counters := {
  done : nat; skipped : nat; failed : nat; converted : nat;
  totalOriginalBytes : Z; totalOutputBytes : Z; savedBytes : Z;
  failures : list (string * string)
}.

Definition counters0 : Counters :=
  {| done := 0; skipped := 0; failed := 0; converted := 0; totalOriginalBytes := 0;
     totalOutputBytes := 0; savedBytes := 0; failures := [] |}.

(** The output bytes counted for a successful response. *)
Definition counted_output (mode : RunMode) (ob : Z) (o w : option ActionDecision)
    (r : option ResponsiveOutcome) : Z :=
  match mode with
  | responsive =>
      match r with
      | Some res => match rs_status res with
                    | a_success => fold_left Z.add (rs_sizes res) 0%Z
                    | _ => ob end
      | None => ob
      end
  | _ => match actionForMode mode o w with
         | Some act => match ad_status act with a_success => ad_outputBytes act | _ => ob end
         | None => ob
         end
  end.

(** The body of a worker's loop after [pool.run] resolves. *)
Definition on_response (mode : RunMode) (c : Counters) (resp : WorkerResponse) : Counters :=
  match resp with
  | RespFailed p msg =>
      {| done := S (done c); skipped := skipped c; failed := S (failed c); converted := converted c;
         totalOriginalBytes := totalOriginalBytes c; totalOutputBytes := totalOutputBytes c;
         savedBytes := savedBytes c; failures := (failures c ++ [(p, msg)])%list |}
  | RespOk p ob o w r =>
      let conv := if is_success w then S (converted c) else converted c in
      let out := counted_output mode ob o w r in
      let st := inferFileStatus mode o w r in
      let skip := match st with Skipped | Cancelled => true | _ => false end in
      {| done := S (done c); skipped := if skip then S (skipped c) else skipped c;
         failed := failed c; converted := conv;
         totalOriginalBytes := totalOriginalBytes c + ob;
         totalOutputBytes := totalOutputBytes c + out;
         savedBytes := savedBytes c + Z.max 0 (ob - out);
         failures := failures c |}
  end.

(** A path still queued when the cancel flag was seen. *)
Definition on_cancelled (c : Counters) : Counters :=
  {| done := S (done c); skipped := S (skipped c); failed := failed c; converted := converted c;
     totalOriginalBytes := totalOriginalBytes c; totalOutputBytes := totalOutputBytes c;
     savedBytes := savedBytes c; failures := failures c |}.

Record RunSummary := {
  totalFiles : nat;
  processedFiles : nat;
  convertedFiles : nat;
  skippedFiles : nat;
  failedFiles : nat;
  s_totalOriginalBytes : Z;
  s_totalOutputBytes : Z;
  totalSavedBytes : Z
}.

(** [stop]: [None] when the run is never cancelled, [Some k] when the
    workers see the cancel flag after [k] paths were taken. Every
    counter is a sum, so folding the responses in dispatch order gives
    the counters of any completion order. *)
Definition executeRun (mode : RunMode) (resolved : list string)
    (respond : string -> WorkerResponse) (stop : option nat) : RunSummary :=
  let taken := match stop with None => resolved | Some k => firstn k resolved end in
  let c1 := fold_left (fun c p => on_response mode c (respond p)) taken counters0 in
  let c2 := match stop with
            | Some _ => fold_left (fun c _ => on_cancelled c) (skipn (length taken) resolved) c1
            | None => c1
            end in
  {| totalFiles := length resolved;
     processedFiles := done c2;
     convertedFiles := converted c2;
     skippedFiles := skipped c2;
     failedFiles := failed c2;
     s_totalOriginalBytes := totalOriginalBytes c2;
     s_totalOutputBytes := totalOutputBytes c2;
     totalSavedBytes := Z.max 0 (totalOriginalBytes c2 - totalOutputBytes c2) |}.

End Run.

(** * watch/watcher.ts: [ProcessedIndexStore] and [processFileWithLifecycle] *)
Module Watch.
Import Candidates Actions.

Record FileFingerprint := { fp_size : Z; fp_mtime : Z; fp_hash : string }.

Definition SAMPLE_SIZE : nat := 1024 * 1024.

(** The successive [hash.update] arguments of [computeFastHash]. *)
Inductive HashChunk := TextChunk (s : string) | DataChunk (b : bytes).

Definition fastHashInput (content : bytes) : list HashChunk :=
  let size := length content in
  TextChunk (pretty (Z.of_nat size)) ::
  (if (size <=? SAMPLE_SIZE * 2)%nat then [DataChunk content]
   else [DataChunk (firstn SAMPLE_SIZE content); DataChunk (skipn (size - SAMPLE_SIZE) content)]).

Section Index.
(** SHA-1 of the concatenated updates, as a hex digest. *)
Variable sha1_hex : list HashChunk -> string.

Definition computeFastHash (content : bytes) : string := sha1_hex (fastHashInput content).

(** [getFingerprint]: [stat] then the fast hash. *)
Definition getFingerprint (content : bytes) (mtimeMs : Z) : FileFingerprint :=
  {| fp_size := Z.of_nat (length content); fp_mtime := mtimeMs; fp_hash := computeFastHash content |}.

Definition hasBeenProcessed (index : gmap string FileFingerprint) (filePath : string)
    (fp : FileFingerprint) : bool :=
  match index !! filePath with
  | None => false
  | Some existing =>
      (fp_size existing =? fp_size fp)%Z && (fp_mtime existing =? fp_mtime fp)%Z
      && String.eqb (fp_hash existing) (fp_hash fp)
  end.

Definition markProcessed (index : gmap string FileFingerprint) (filePath : string)
    (fp : FileFingerprint) : gmap string FileFingerprint :=
  <[filePath := fp]> index.

Inductive WatchStatus := w_success | w_failed | w_skipped.

Record OptimizedEvent := {
  folder : string; e_path : string; e_status : WatchStatus;
  before : Z; after : Z; saved : Z; e_message : option string
}.

Record WatchFolderSettings := { maxFileSizeMb : Z; w_runMode : RunMode }.

Record QueueItem := { q_folder : string; filePath : string; retryCount : nat }.

(** What happens outside during one processing of an item: the
    stability wait, the file as [stat]/[read] see it (content and
    [mtimeMs]; None when they throw), and the pool's response. *)
Record WatchWorld := {
  isStable : bool;
  file : option (bytes * Z);
  poolResponse : Run.WorkerResponse
}.

Record WatchState := {
  index : gmap string FileFingerprint;
  events : list OptimizedEvent;
  pipelineRuns : nat;
  requeued : list QueueItem
}.

Definition emitOptimized (st : WatchState) (ev : OptimizedEvent) : WatchState :=
  {| index := index st; events := (events st ++ [ev])%list; pipelineRuns := pipelineRuns st;
     requeued := requeued st |}.

Definition watch_status (a : option ActionDecision) : WatchStatus :=
  match a with
  | Some d => match ad_status d with a_success => w_success | a_failed => w_failed | a_skipped => w_skipped end
  | None => w_skipped
  end.

(** [runOptimization]; the pool runs the pipeline once. *)
Definition runOptimization (fld fp_path : string) (settings : WatchFolderSettings)
    (fp : FileFingerprint) (resp : Run.WorkerResponse) (st : WatchState)
  : Exn unit * WatchState :=
  let st := {| index := index st; events := events st; pipelineRuns := S (pipelineRuns st);
               requeued := requeued st |} in
  match resp with
  | Run.RespFailed _ msg => (Throw (PlainError msg), st)
  | Run.RespOk _ ob o w _ =>
      let action :=
        match w_runMode settings with
        | convertWebp => w
        | optimize => o
        | _ => match o with Some _ => o | None => w end
        end in
      let beforeBytes := match action with Some d => ad_originalBytes d | None => ob end in
      let afterBytes := match action with Some d => ad_outputBytes d | None => beforeBytes end in
      let status := watch_status action in
      let st' := match status with
                 | w_success => {| index := markProcessed (index st) fp_path fp; events := events st;
                                   pipelineRuns := pipelineRuns st; requeued := requeued st |}
                 | _ => st
                 end in
      (Ok tt, emitOptimized st' {| folder := fld; e_path := fp_path; e_status := status;
                                   before := beforeBytes; after := afterBytes;
                                   saved := Z.max 0 (beforeBytes - afterBytes);
                                   e_message := match action with Some d => ad_reason d | None => None end |})
  end.

Definition processFileWithLifecycle (item : QueueItem) (settings : WatchFolderSettings)
    (w : WatchWorld) (st : WatchState) : WatchState :=
  let fld := q_folder item in
  let fpath := filePath item in
  let body : Exn unit * WatchState :=
    if negb (isStable w) then (Throw (PlainError "File did not become stable within timeout"), st)
    else match file w with
    | None => (Throw (PlainError ("ENOENT: no such file or directory, stat '" ++ fpath ++ "'")), st)
    | Some (content, mtimeMs) =>
        let size := Z.of_nat (length content) in
        if (0 <? maxFileSizeMb settings)%Z && (maxFileSizeMb settings * 1024 * 1024 <? size)%Z
        then (Ok tt, emitOptimized st {| folder := fld; e_path := fpath; e_status := w_skipped;
                                          before := size; after := size; saved := 0;
                                          e_message := Some "File too large" |})
        else
          let fp := getFingerprint content mtimeMs in
          if hasBeenProcessed (index st) fpath fp
          then (Ok tt, emitOptimized st {| folder := fld; e_path := fpath; e_status := w_skipped;
                                            before := size; after := size; saved := 0;
                                            e_message := Some "Already processed" |})
          else runOptimization fld fpath settings fp (poolResponse w) st
    end in
  match body with
  | (Ok _, st') => st'
  | (Throw e, st') =>
      if (retryCount item <? 2)%nat
      then {| index := index st'; events := events st'; pipelineRuns := pipelineRuns st';
              requeued := (requeued st' ++ [ {| q_folder := fld; filePath := fpath;
                                                retryCount := S (retryCount item) |} ])%list |}
      else emitOptimized st' {| folder := fld; e_path := fpath; e_status := w_failed;
                                before := 0; after := 0; saved := 0; e_message := Some (message e) |}
  end.

End Index.
End Watch.

(** * Concrete inputs used to exercise the properties *)
Module Samples.
Import Candidates Pipeline Actions.

Definition settings0 : EffectiveSettings :=
  {| outputMode := subfolder; exportPreset := original; namingPattern := "{name}";
     runMode := optimize; keepMetadata := false; allowLargerOutput := false;
     aggressivePng := false; reencodeExistingWebp := false; replaceWithWebp := false;
     confirmDangerousWebpReplace := false; deleteOriginalAfterWebp := false;
     jpegQualityMode := auto; jpegQuality := 80; webpQualityMode := auto; webpQuality := 80;
     qualityGuardrailSsim := true; smartCompressionMode := false;
     smartTarget := visually_lossless; qualityGuardrail := 90;
     optimizationSpeed := balanced_speed |}.

(** An encoder run that succeeds and writes [n] bytes, with similarity [sim]. *)
Definition ok_attempt (n : nat) (sim : Q) : Attempt :=
  {| found := fun _ => true; run := fun _ => None;
     read := Ok (repeat Byte.x00 n, Z.of_nat n); similarity := Ok sim |}.

(** Encoders whose output shrinks with the quality, all within the guard. *)
Definition world0 : ActionWorld :=
  {| smartResult := None;
     ladderSlot := fun q => ok_attempt (Z.to_nat q) 1;
     losslessSlot := ok_attempt 50 1;
     rangeSlot := fun _ => ok_attempt 40 1;
     backupIO := None; writeIO := None; rmIO := None |}.

Definition jpeg_ladder_cs : list CandidateResult :=
  Eval vm_compute in
    match build_candidates settings0 jpeg world0 with Ok cs => cs | Throw _ => [] end.

Definition st0 : PState := {| cache := ∅; records := []; files := ∅ |}.

Definition opo0 (i _ : string) (_ : OutputMode) : string := i.
Definition dp0 (_ _ : string) (_ : bytes) (_ : ImgFormat) : Exn Applied := Throw (PlainError "design").
Definition rt0 (_ : string) (a : Applied) (_ : string) (_ : bool) : Exn string := Ok (ap_targetPath a).

(** The optimise action on a 100-byte [photo.jpg] in subfolder mode. *)
Definition jpeg_run : Exn ActionDecision * PState :=
  runOptimizeAction opo0 dp0 rt0 "photo.jpg" (repeat Byte.x00 100) settings0 "" None world0 st0.

Definition jpeg_run_decision : ActionDecision :=
  Eval vm_compute in match fst jpeg_run with Ok d => d | Throw _ => skipDecision 0 "" end.

(** pngquant exits with code 99 on every range; oxipng times out. *)
Definition pngquant99_attempt : Attempt :=
  {| found := fun _ => true;
     run := fun b => if String.eqb b "pngquant"
                     then Some (ToolError "pngquant exited with code 99" (Some 99%Z)) else None;
     read := Ok ([], 0%Z); similarity := Ok 1%Q |}.

Definition oxipng_timeout_attempt : Attempt :=
  {| found := fun _ => true; run := fun _ => Some (ToolError "oxipng timed out" None);
     read := Ok ([], 0%Z); similarity := Ok 1%Q |}.

Definition world_png99 : ActionWorld :=
  {| smartResult := None; ladderSlot := fun q => ok_attempt (Z.to_nat q) 1;
     losslessSlot := oxipng_timeout_attempt; rangeSlot := fun _ => pngquant99_attempt;
     backupIO := None; writeIO := None; rmIO := None |}.

(** A write that fails after 2 bytes reached the temp file, and a
    cleanup [rm] that fails too. *)
Definition fs_write_fails : AtomicWrite.FsWorld :=
  {| AtomicWrite.mkdirIO := None;
     AtomicWrite.writeIO := Some (PlainError "ENOSPC: no space left on device, write", 2%nat);
     AtomicWrite.statIO := None; AtomicWrite.sharpFormat := fun _ => Ok (Some jpeg);
     AtomicWrite.backupMkdirIO := None; AtomicWrite.copyIO := None; AtomicWrite.renameIO := None;
     AtomicWrite.rmIO := Some (PlainError "EBUSY: resource busy or locked, rm") |}.

Definition write_options0 : AtomicWrite.WriteOptions :=
  {| AtomicWrite.backupDir := None; AtomicWrite.expectedFormat := Some jpeg;
     AtomicWrite.skipValidation := false |}.

Definition fs_write_fails_rm_ok : AtomicWrite.FsWorld :=
  {| AtomicWrite.mkdirIO := None;
     AtomicWrite.writeIO := Some (PlainError "ENOSPC: no space left on device, write", 2%nat);
     AtomicWrite.statIO := None; AtomicWrite.sharpFormat := fun _ => Ok (Some jpeg);
     AtomicWrite.backupMkdirIO := None; AtomicWrite.copyIO := None; AtomicWrite.renameIO := None;
     AtomicWrite.rmIO := None |}.

Definition target_before : gmap string bytes := {[ "out/a.jpg" := [Byte.x07] ]}.

Definition failed_write : AtomicWrite.WriteResult * gmap string bytes :=
  AtomicWrite.atomicWrite "out/a.jpg" [Byte.x01; Byte.x02; Byte.x03] write_options0
    "1700000000000" "9f3a" fs_write_fails_rm_ok target_before.

Definition failed_write_rm_fails : AtomicWrite.WriteResult * gmap string bytes :=
  AtomicWrite.atomicWrite "out/a.jpg" [Byte.x01; Byte.x02; Byte.x03] write_options0
    "1700000000000" "9f3a" fs_write_fails target_before.

(** A 1 MiB + 1 byte file, already in the processed index, seen again
    after the folder's size cap was lowered to 1 MB. *)
Definition sha_const (_ : list Watch.HashChunk) : string := "da39a3ee".

Definition big_content : bytes := repeat Byte.x00 (S (2 ^ 20)).

Definition big_item : Watch.QueueItem :=
  {| Watch.q_folder := "in"; Watch.filePath := "in/big.png"; Watch.retryCount := 0 |}.

Definition cap1_settings : Watch.WatchFolderSettings :=
  {| Watch.maxFileSizeMb := 1; Watch.w_runMode := optimize |}.

Definition big_world : Watch.WatchWorld :=
  {| Watch.isStable := true; Watch.file := Some (big_content, 0%Z);
     Watch.poolResponse := Run.RespFailed "in/big.png" "unreachable" |}.

Definition big_state : Watch.WatchState :=
  {| Watch.index := {[ "in/big.png" := Watch.getFingerprint sha_const big_content 0 ]};
     Watch.events := []; Watch.pipelineRuns := 0; Watch.requeued := [] |}.

(** A small file already in the index, seen again with no size cap. *)
Definition small_content : bytes := [Byte.x89; Byte.x50; Byte.x4e; Byte.x47].

Definition small_item : Watch.QueueItem :=
  {| Watch.q_folder := "in"; Watch.filePath := "in/icon.png"; Watch.retryCount := 0 |}.

Definition nocap_settings : Watch.WatchFolderSettings :=
  {| Watch.maxFileSizeMb := 0; Watch.w_runMode := optimize |}.

Definition small_world : Watch.WatchWorld :=
  {| Watch.isStable := true; Watch.file := Some (small_content, 1700000000000%Z);
     Watch.poolResponse := Run.RespFailed "in/icon.png" "unreachable" |}.

Definition small_state : Watch.WatchState :=
  {| Watch.index := {[ "in/icon.png" := Watch.getFingerprint sha_const small_content 1700000000000 ]};
     Watch.events := []; Watch.pipelineRuns := 0; Watch.requeued := [] |}.

(** A job's backup state before any backup, holding one input file. *)
Definition st_input : PState :=
  {| cache := ∅; records := []; files := {[ "in/a.jpg" := [Byte.xff; Byte.xd8] ]} |}.

End Samples.

(** * The backup records of one file job *)
Module BackupInv.
Import Actions.

(** Each original path has at most one record, and every recorded path
    has a non-empty cached backup path. *)
Definition backups_inv (st : PState) : Prop :=
  NoDup (map originalPath (records st)) /\
  Forall (fun o => exists p, cache st !! o = Some p /\ p <> "") (map originalPath (records st)).

End BackupInv.

(** * Further embedded code: job calls, watcher filter and index, settings, restore *)

Import Candidates.

Module JobCalls.
Import Jobs.

(** A caller issuing the methods in order; the error [start()] throws
    is caught, and leaves the job as it was. *)
Fixpoint run_calls (ms : list Method) (j : Job) : Job :=
  match ms with
  | [] => j
  | m :: rest => run_calls rest (match call m j with Ok j' => j' | Throw _ => j end)
  end.

(** The result field agrees with the status, and the last change event
    reports the current status and result. *)
Definition result_agrees (j : Job) : Prop :=
  match status j with
  | success | failed | skipped => exists b, result j = Some {| res_status := status j; res_body := b |}
  | _ => result j = None
  end.

Definition events_agree (j : Job) : Prop :=
  (emitted j = [] <-> status j = queued) /\
  (forall ev, last (emitted j) = Some ev -> ev_status ev = status j /\ ev_result ev = result j).

Definition body0 : JobResultBody :=
  {| originalBytes := 100; outputBytes := 60; bytesSaved := 40; warnings := []; totalMs := 12 |}.

End JobCalls.

Definition fs_ok : AtomicWrite.FsWorld :=
  {| AtomicWrite.mkdirIO := None; AtomicWrite.writeIO := None; AtomicWrite.statIO := None;
     AtomicWrite.sharpFormat := fun b => match b with [] => Ok None | _ => Ok (Some Candidates.jpeg) end;
     AtomicWrite.backupMkdirIO := None; AtomicWrite.copyIO := None; AtomicWrite.renameIO := None;
     AtomicWrite.rmIO := None |}.

Definition backup_options : AtomicWrite.WriteOptions :=
  {| AtomicWrite.backupDir := Some "bk"; AtomicWrite.expectedFormat := Some Candidates.jpeg;
     AtomicWrite.skipValidation := false |}.

Definition ok_write : AtomicWrite.WriteResult * gmap string bytes :=
  AtomicWrite.atomicWrite "out/a.jpg" [Byte.x01; Byte.x02; Byte.x03] backup_options
    "1700000000000" "9f3a" fs_ok {[ "out/a.jpg" := [Byte.x07] ]}.

Module WatchIndex.
Import Watch.
(** [ProcessedIndexStore.remove]; a stored fingerprint object is truthy. *)
Definition remove (index : gmap string FileFingerprint) (filePath : string)
  : gmap string FileFingerprint :=
  match index !! filePath with
  | Some _ => delete filePath index
  | None => index
  end.

(** The byte sequences passed to [hash.update]. *)
Definition hashed_bytes (chunks : list HashChunk) : bytes :=
  List.concat (map (fun c => match c with DataChunk b => b | TextChunk _ => [] end) chunks).
End WatchIndex.

Definition byte_sum (cs : list Watch.HashChunk) : string :=
  pretty (Z.of_nat (fold_left (fun a b => a + Byte.to_nat b)%nat (WatchIndex.hashed_bytes cs) 0%nat)).

Definition flat_content : bytes := repeat Byte.x00 (S (2 ^ 21)).
Definition edited_content : bytes := (repeat Byte.x00 (2 ^ 20) ++ [Byte.x01] ++ repeat Byte.x00 (2 ^ 20))%list.

Fixpoint bytes_eqb (a b : bytes) : bool :=
  match a, b with
  | [], [] => true
  | x :: a', y :: b' => Byte.eqb x y && bytes_eqb a' b'
  | _, _ => false
  end.

Definition failing_world : Watch.WatchWorld :=
  {| Watch.isStable := true; Watch.file := Some (Samples.small_content, 5%Z);
     Watch.poolResponse := Run.RespFailed "in/icon.png" "cjpeg exited with code 1" |}.

Definition third_attempt : Watch.QueueItem :=
  {| Watch.q_folder := "in"; Watch.filePath := "in/icon.png"; Watch.retryCount := 2 |}.

Module Settings.

(** A JavaScript number whose finite values are integers. *)
Inductive JsNumber := Finite (z : Z) | NaN | PosInfinity | NegInfinity.

(** [Math.min] and [Math.max] of two numbers. *)
Definition js_min (a b : JsNumber) : JsNumber :=
  match a, b with
  | NaN, _ | _, NaN => NaN
  | NegInfinity, _ | _, NegInfinity => NegInfinity
  | PosInfinity, x | x, PosInfinity => x
  | Finite x, Finite y => Finite (Z.min x y)
  end.

Definition js_max (a b : JsNumber) : JsNumber :=
  match a, b with
  | NaN, _ | _, NaN => NaN
  | PosInfinity, _ | _, PosInfinity => PosInfinity
  | NegInfinity, x | x, NegInfinity => x
  | Finite x, Finite y => Finite (Z.max x y)
  end.

(** [x || d] on a number: 0 and NaN are falsy. *)
Definition js_or (x d : JsNumber) : JsNumber :=
  match x with Finite 0 | NaN => d | _ => x end.

(** The fields of the persisted [OptimiseSettings] that
    [toEffectiveSettings] reads; [None] is a field absent from the
    stored JSON, which the [??] defaults cover. *)
Record OptimiseSettings := {
  o_outputMode : OutputMode;
  o_exportPreset : option ExportPreset;
  o_namingPattern : option string;
  o_keepMetadata : bool;
  o_jpegQualityMode : option QualityMode;
  o_jpegQuality : JsNumber;
  o_webpQualityMode : option QualityMode;
  o_webpQuality : JsNumber;
  o_webpEffort : JsNumber;
  o_reencodeExistingWebp : bool;
  o_aggressivePng : bool;
  o_allowLargerOutput : bool;
  o_replaceWithWebp : bool;
  o_confirmDangerousWebpReplace : bool;
  o_deleteOriginalAfterWebp : bool;
  o_qualityGuardrailSsim : bool;
  o_smartCompressionMode : bool;
  o_smartTarget : option SmartTarget;
  o_qualityGuardrail : option Q;
  o_optimizationSpeed : option Speed
}.

Definition run_mode_eqb (a b : RunMode) : bool :=
  match a, b with
  | optimize, optimize | convertWebp, convertWebp | optimizeAndWebp, optimizeAndWebp
  | smart, smart | responsive, responsive => true
  | _, _ => false
  end.

Definition toEffectiveSettings (settings : OptimiseSettings) (rm : RunMode) : EffectiveSettings :=
  (* [Number.isFinite(q) ? Math.max(1, Math.min(100, q)) : default] *)
  let jpegQuality :=
    match o_jpegQuality settings with Finite q => Z.max 1 (Z.min 100 q) | _ => 82%Z end in
  let webpQuality :=
    match o_webpQuality settings with Finite q => Z.max 1 (Z.min 100 q) | _ => 80%Z end in
  {| outputMode := o_outputMode settings;
     exportPreset := default web (o_exportPreset settings);
     namingPattern := default "{name}" (o_namingPattern settings);
     runMode := rm;
     keepMetadata := o_keepMetadata settings;
     allowLargerOutput := o_allowLargerOutput settings;
     aggressivePng := o_aggressivePng settings;
     reencodeExistingWebp := o_reencodeExistingWebp settings;
     replaceWithWebp := o_replaceWithWebp settings;
     confirmDangerousWebpReplace := o_confirmDangerousWebpReplace settings;
     deleteOriginalAfterWebp := o_deleteOriginalAfterWebp settings;
     jpegQualityMode := default auto (o_jpegQualityMode settings);
     jpegQuality := jpegQuality;
     webpQualityMode := default auto (o_webpQualityMode settings);
     webpQuality := webpQuality;
     qualityGuardrailSsim := o_qualityGuardrailSsim settings;
     smartCompressionMode := o_smartCompressionMode settings || run_mode_eqb rm smart;
     smartTarget := default visually_lossless (o_smartTarget settings);
     qualityGuardrail := default 90%Q (o_qualityGuardrail settings);
     optimizationSpeed := default balanced_speed (o_optimizationSpeed settings) |}.

(** The [webpEffort] field of [toEffectiveSettings]' result
    ([EffectiveSettings] here leaves out the WebP encoder options). *)
Definition effectiveWebpEffort (settings : OptimiseSettings) : JsNumber :=
  js_max (Finite 4) (js_min (Finite 6) (js_or (o_webpEffort settings) (Finite 5))).

End Settings.

Module WatchFilter.

Definition TEMP_SUFFIXES : list string := [".tmp"; ".crdownload"; ".download"].

Definition isTempFile (inputPath : string) : bool :=
  let lower := to_lower inputPath in
  existsb (fun suffix => ends_with suffix lower) TEMP_SUFFIXES.

Definition shouldIgnorePath (inputPath : string) : bool :=
  let normalized := Actions.replace_char "\"%char "/"%char inputPath in
  if includes "/.optimise-tmp/" normalized || includes "/.optimise-backup/" normalized then true
  else if includes "/Optimized/" normalized then true
  else isTempFile inputPath.

End WatchFilter.

(** The characters of a string, as a predicate. *)
Fixpoint no_char (c : ascii) (s : string) : bool :=
  match s with
  | EmptyString => true
  | String x rest => negb (Ascii.eqb x c) && no_char c rest
  end.

Definition fresh_job (fs : gmap string bytes) : Actions.PState :=
  {| Actions.cache := ∅; Actions.records := []; Actions.files := fs |}.

Definition passes_at (measure : nat -> Z -> option (Smart.MetricResult * bytes)) (thr : Q) (i : nat) (q : Z) : bool :=
  match Smart.encodeAndMeasure measure i q with Some c => Smart.passes thr c | None => false end.

Definition cand (label : string) (n : Z) : Pipeline.CandidateResult :=
  {| Pipeline.c_buffer := []; Pipeline.c_bytes := n; Pipeline.qualityLabel := label;
     Pipeline.c_format := Candidates.jpeg; Pipeline.c_ssim := None |}.

(** Two ladder steps tie at 30 bytes. *)
Definition tie_cs : list Pipeline.CandidateResult :=
  [cand "mozjpeg q88" 40; cand "mozjpeg q84" 30; cand "mozjpeg q80" 30].

Definition missing_thrown (x : Exn (list Pipeline.CandidateResult)) : Prop :=
  exists e, x = Throw e /\ includes "Missing optimizer binary" (message e) = true.

(** The ladder's encoder at quality 80 finds no cjpeg under resources/bin. *)
Definition no_cjpeg_attempt : Pipeline.Attempt :=
  {| Pipeline.found := fun b => negb (String.eqb b "cjpeg"); Pipeline.run := fun _ => None;
     Pipeline.read := Ok ([], 0%Z); Pipeline.similarity := Ok 1%Q |}.

Definition world_no_cjpeg : Actions.ActionWorld :=
  {| Actions.smartResult := None;
     Actions.ladderSlot := fun q => if (q =? 80)%Z then no_cjpeg_attempt else Samples.ok_attempt (Z.to_nat q) 1;
     Actions.losslessSlot := Samples.ok_attempt 50 1;
     Actions.rangeSlot := fun _ => Samples.ok_attempt 40 1;
     Actions.backupIO := None; Actions.writeIO := None; Actions.rmIO := None |}.

Definition is_failed_response (r : Run.WorkerResponse) : bool :=
  match r with Run.RespFailed _ _ => true | Run.RespOk _ _ _ _ _ => false end.

Module Restore.
Import Actions.

Record LastRunState := {
  runId : string;
  lr_backupDir : option string;
  backupRecords : list BackupRecord;
  logPath : string
}.

(** How the [fs.rm], [fs.copyFile] and [fs.rename] of a restore end,
    by their paths ([None]: no error). [fs.rm] runs with [force], so a
    missing file is no error; [copyFile] also throws when the backup
    file is missing. *)
Record RestoreWorld := {
  rm_io : string -> option ErrorValue;
  copy_io : string -> string -> option ErrorValue;
  rename_io : string -> string -> option ErrorValue
}.

(** The [try] block for one record: [true] when it reaches
    [restored += 1]; the effects done before a throw stay. *)
Definition restore_record (w : RestoreWorld) (record : BackupRecord) (fs : gmap string bytes)
  : bool * gmap string bytes :=
  let removed :=
    match removeOnRestore record with
    | Some t =>
        if String.eqb t "" then Ok fs
        else match rm_io w t with Some e => Throw e | None => Ok (delete t fs) end
    | None => Ok fs
    end in
  match removed with
  | Throw _ => (false, fs)
  | Ok fs1 =>
      let tempPath := originalPath record ++ ".restore.tmp" in
      match copy_io w (backupPath record) tempPath with
      | Some _ => (false, fs1)
      | None =>
          match fs1 !! backupPath record with
          | None => (false, fs1)
          | Some b =>
              let fs2 := <[tempPath := b]> fs1 in
              match rename_io w tempPath (originalPath record) with
              | Some _ => (false, fs2)
              | None => (true, <[originalPath record := b]> (delete tempPath fs2))
              end
          end
      end
  end.

Fixpoint restore_loop (w : RestoreWorld) (rs : list BackupRecord) (restored failed : nat)
    (fs : gmap string bytes) : nat * nat * gmap string bytes :=
  match rs with
  | [] => (restored, failed, fs)
  | r :: rest =>
      let '(ok, fs') := restore_record w r fs in
      if ok then restore_loop w rest (S restored) failed fs'
      else restore_loop w rest restored (S failed) fs'
  end.

(** [state] is the parsed last-run.json; [None] when reading or parsing
    it throws (the outer [catch]). *)
Definition restoreLastRun (state : option LastRunState) (w : RestoreWorld) (fs : gmap string bytes)
  : (nat * nat * string) * gmap string bytes :=
  match state with
  | None => ((0%nat, 0%nat, "No previous run backup data available."), fs)
  | Some st =>
      match backupRecords st with
      | [] => ((0%nat, 0%nat, "No backup records found for last run."), fs)
      | recs =>
          let '(restored, failed, fs') := restore_loop w recs 0 0 fs in
          ((restored, failed,
            "Restore finished. Restored " ++ pretty restored ++ " file(s), failed " ++ pretty failed ++ "."),
           fs')
      end
  end.

End Restore.

(** The backups of one file job, as restoring them needs them: every
    record is for [ip] with backup path [bp] and nothing to remove at
    [bp]; once a record exists [bp] holds [orig]; and records exist
    exactly when [ip] has a backup path cached. *)
Definition rec_ok (ip bp : string) (r : Actions.BackupRecord) : Prop :=
  Actions.originalPath r = ip /\ Actions.backupPath r = bp /\
  (forall t, Actions.removeOnRestore r = Some t -> t <> bp).

Definition rinv (ip bp : string) (orig : bytes) (st : Actions.PState) : Prop :=
  Forall (rec_ok ip bp) (Actions.records st) /\
  (Actions.records st <> [] -> Actions.files st !! bp = Some orig) /\
  (Actions.records st <> [] <-> exists p, Actions.cache st !! ip = Some p /\ p <> "").

Definition rinvC (ip : string) (orig : bytes) (st : Actions.PState) : Prop :=
  Actions.records st = [] -> Actions.files st !! ip = Some orig.

Definition settings_replace : EffectiveSettings :=
  {| outputMode := replace; exportPreset := original; namingPattern := "{name}";
     runMode := optimize; keepMetadata := false; allowLargerOutput := false;
     aggressivePng := false; reencodeExistingWebp := false; replaceWithWebp := false;
     confirmDangerousWebpReplace := false; deleteOriginalAfterWebp := false;
     jpegQualityMode := auto; jpegQuality := 80; webpQualityMode := auto; webpQuality := 80;
     qualityGuardrailSsim := true; smartCompressionMode := false;
     smartTarget := visually_lossless; qualityGuardrail := 90;
     optimizationSpeed := balanced_speed |}.

(** The naming template keeps the input path: the output replaces it. *)
Definition rt_in_place (i : string) (_ : Actions.Applied) (_ : string) (_ : bool) : Exn string := Ok i.

Definition opw0 (i _ : string) (_ : OutputMode) : string := i ++ ".webp".

Definition photo_fs : gmap string bytes := {[ "photo.jpg" := repeat Byte.x00 100 ]}.

Definition replace_run : Exn Actions.PipelineFileResult * gmap string bytes :=
  Actions.processFile Samples.opo0 opw0 Samples.dp0 rt_in_place "photo.jpg" settings_replace ""
    (Some "bk") Samples.world0 Samples.world0 photo_fs.

Definition replace_result : Actions.PipelineFileResult :=
  Eval vm_compute in
    match fst replace_run with
    | Ok r => r
    | Throw _ => {| Actions.pf_originalBytes := 0; Actions.optimised := None; Actions.webpResult := None;
                    Actions.backups := []; Actions.pf_status := Actions.a_skipped |}
    end.

Definition replace_files : gmap string bytes := Eval vm_compute in snd replace_run.

Definition restore_io_ok : Restore.RestoreWorld :=
  {| Restore.rm_io := fun _ => None; Restore.copy_io := fun _ _ => None; Restore.rename_io := fun _ _ => None |}.

(** * Properties *)

Import Candidates.

(** ** Helper lemmas *)

Lemma head_insert_by_bytes (a : Pipeline.CandidateResult) (s : list Pipeline.CandidateResult) :
  head (Pipeline.insert_by_bytes a s) =
  match s with
  | [] => Some a
  | d :: _ => Some (if (Pipeline.c_bytes a <=? Pipeline.c_bytes d)%Z then a else d)
  end.
Proof. destruct s as [|d rest]; simpl; [reflexivity|]. destruct (_ <=? _)%Z; reflexivity. Qed.

Lemma sort_by_bytes_nil (l : list Pipeline.CandidateResult) :
  Pipeline.sort_by_bytes l = [] -> l = [].
Proof.
  destruct l as [|a l]; [reflexivity|]. simpl.
  destruct (Pipeline.sort_by_bytes l) as [|d r]; simpl; [discriminate|].
  destruct (_ <=? _)%Z; discriminate.
Qed.

Lemma sort_by_bytes_head_min (l : list Pipeline.CandidateResult) :
  l <> [] ->
  exists b, head (Pipeline.sort_by_bytes l) = Some b /\ In b l /\
            Forall (fun c => (Pipeline.c_bytes b <= Pipeline.c_bytes c)%Z) l.
Proof.
  induction l as [|a l IH]; intros Hne; [congruence|].
  unfold Pipeline.sort_by_bytes; simpl; fold (Pipeline.sort_by_bytes l).
  rewrite head_insert_by_bytes.
  destruct l as [|a' l'].
  - simpl. exists a. split; [reflexivity|]. split; [left; reflexivity|].
    constructor; [lia|constructor].
  - destruct IH as [b [Hb [Hin Hall]]]; [discriminate|].
    destruct (Pipeline.sort_by_bytes (a' :: l')) as [|d r] eqn:Hs; [discriminate|].
    simpl in Hb. injection Hb as <-.
    destruct (Z.leb_spec (Pipeline.c_bytes a) (Pipeline.c_bytes d)) as [Hle|Hgt].
    + exists a. split; [reflexivity|]. split; [left; reflexivity|].
      constructor; [lia|]. eapply Forall_impl; [exact Hall|]. simpl. intros c Hc. lia.
    + exists d. split; [reflexivity|]. split; [right; exact Hin|].
      constructor; [lia|exact Hall].
Qed.

Lemma pickBest_none (cs : list Pipeline.CandidateResult) :
  Pipeline.pickBest cs = None <-> cs = [].
Proof.
  split; [|intros ->; reflexivity].
  destruct cs as [|c r]; [reflexivity|]. intros H.
  destruct (sort_by_bytes_head_min (c :: r)) as [b [Hb _]]; [discriminate|].
  unfold Pipeline.pickBest in H. rewrite Hb in H. discriminate.
Qed.

Lemma pickBest_min (cs : list Pipeline.CandidateResult) :
  cs <> [] ->
  exists b, Pipeline.pickBest cs = Some b /\ In b cs /\
            Forall (fun c => (Pipeline.c_bytes b <= Pipeline.c_bytes c)%Z) cs.
Proof.
  intros Hne. destruct (sort_by_bytes_head_min cs Hne) as [b [Hb H]].
  exists b. split; [|exact H]. unfold Pipeline.pickBest. destruct cs; [congruence|exact Hb].
Qed.

Lemma search_loop_sound (measure : nat -> Z -> option (Smart.MetricResult * bytes))
    (thr : Q) (lo0 : Z) :
  forall fuel i mn mx best,
    (lo0 <= mn)%Z -> (mx <= 95)%Z -> (mn <= mx)%Z ->
    (match best with
     | Some r => Qle_bool thr (Smart.mssim (Smart.metrics r)) = true
                 /\ Qle_bool (5 # 100) (Smart.bandingRisk (Smart.metrics r)) = false
                 /\ (lo0 <= Smart.quality r <= 95)%Z
     | None => True end) ->
    let res := Smart.search_loop measure thr fuel i mn mx best in
    (length (snd res) <= fuel)%nat /\
    Forall (fun q => (lo0 <= q <= 95)%Z) (snd res) /\
    match fst res with
    | Some r => Qle_bool thr (Smart.mssim (Smart.metrics r)) = true
                /\ Qle_bool (5 # 100) (Smart.bandingRisk (Smart.metrics r)) = false
                /\ (lo0 <= Smart.quality r <= 95)%Z
    | None => True end.
Proof.
  induction fuel as [|fuel IH]; intros i mn mx best Hlo Hhi Hle Hbest; simpl.
  - split; [lia|]. split; [constructor|exact Hbest].
  - set (q := ((mn + mx) / 2)%Z).
    assert (Hq : (mn <= q <= mx)%Z) by (unfold q; split; [apply Z.div_le_lower_bound|apply Z.div_le_upper_bound]; lia).
    unfold Smart.encodeAndMeasure.
    destruct (measure i q) as [[m b]|] eqn:Hm.
    + unfold Smart.passes; simpl.
      destruct (Qle_bool thr (Smart.mssim m)) eqn:H1;
        destruct (Qle_bool (5 # 100) (Smart.bandingRisk m)) eqn:H2; simpl.
      * (* banding veto: fail *)
        destruct (mx <? q + 1)%Z eqn:Hc.
        { simpl. split; [lia|]. split; [constructor; [lia|constructor]|exact Hbest]. }
        { apply Z.ltb_ge in Hc.
          destruct (IH (S i) (q + 1)%Z mx best ltac:(lia) Hhi ltac:(lia) Hbest) as [A [B C]].
          destruct (Smart.search_loop measure thr fuel (S i) (q + 1)%Z mx best) as [r qs].
          simpl in *. split; [lia|]. split; [constructor; [lia|exact B]|exact C]. }
      * (* pass *)
        assert (Hnew : Qle_bool thr (Smart.mssim m) = true /\
                       Qle_bool (5 # 100) (Smart.bandingRisk m) = false /\ (lo0 <= q <= 95)%Z)
          by (split; [exact H1|split; [exact H2|lia]]).
        destruct (q - 1 <? mn)%Z eqn:Hc.
        { simpl. split; [lia|]. split; [constructor; [lia|constructor]|exact Hnew]. }
        { apply Z.ltb_ge in Hc.
          destruct (IH (S i) mn (q - 1)%Z (Some {| Smart.quality := q; Smart.metrics := m; Smart.buffer := b |})
                      Hlo ltac:(lia) ltac:(lia) Hnew) as [A [B C]].
          destruct (Smart.search_loop measure thr fuel (S i) mn (q - 1)%Z _) as [r qs].
          simpl in *. split; [lia|]. split; [constructor; [lia|exact B]|exact C]. }
      * destruct (mx <? q + 1)%Z eqn:Hc.
        { simpl. split; [lia|]. split; [constructor; [lia|constructor]|exact Hbest]. }
        { apply Z.ltb_ge in Hc.
          destruct (IH (S i) (q + 1)%Z mx best ltac:(lia) Hhi ltac:(lia) Hbest) as [A [B C]].
          destruct (Smart.search_loop measure thr fuel (S i) (q + 1)%Z mx best) as [r qs].
          simpl in *. split; [lia|]. split; [constructor; [lia|exact B]|exact C]. }
      * destruct (mx <? q + 1)%Z eqn:Hc.
        { simpl. split; [lia|]. split; [constructor; [lia|constructor]|exact Hbest]. }
        { apply Z.ltb_ge in Hc.
          destruct (IH (S i) (q + 1)%Z mx best ltac:(lia) Hhi ltac:(lia) Hbest) as [A [B C]].
          destruct (Smart.search_loop measure thr fuel (S i) (q + 1)%Z mx best) as [r qs].
          simpl in *. split; [lia|]. split; [constructor; [lia|exact B]|exact C]. }
    + destruct (mx <? q + 1)%Z eqn:Hc.
      { simpl. split; [lia|]. split; [constructor; [lia|constructor]|exact Hbest]. }
      { apply Z.ltb_ge in Hc.
        destruct (IH (S i) (q + 1)%Z mx best ltac:(lia) Hhi ltac:(lia) Hbest) as [A [B C]].
        destruct (Smart.search_loop measure thr fuel (S i) (q + 1)%Z mx best) as [r qs].
        simpl in *. split; [lia|]. split; [constructor; [lia|exact B]|exact C]. }
Qed.

Lemma search_loop_first (measure : nat -> Z -> option (Smart.MetricResult * bytes))
    (thr : Q) fuel i mn mx best :
  (0 < fuel)%nat ->
  exists qs, snd (Smart.search_loop measure thr fuel i mn mx best) = ((mn + mx) / 2)%Z :: qs.
Proof.
  intros Hf. destruct fuel as [|fuel]; [lia|]. simpl.
  destruct (Smart.encodeAndMeasure measure i ((mn + mx) / 2)) as [c|];
    [destruct (Smart.passes thr c)|];
    match goal with
    | |- context [if (?a <? ?b)%Z then _ else _] => destruct (a <? b)%Z
    end;
    try (eexists; reflexivity);
    match goal with
    | |- context [Smart.search_loop ?m ?t ?f ?i ?a ?b ?c] => destruct (Smart.search_loop m t f i a b c)
    end; eexists; reflexivity.
Qed.

Lemma evaluateCandidate_label needsSsim thr a f l c :
  Pipeline.evaluateCandidate needsSsim thr a f l = Ok (Some c) -> Pipeline.qualityLabel c = l.
Proof.
  unfold Pipeline.evaluateCandidate. destruct (Pipeline.read a) as [[buf size]|e]; simpl; [|discriminate].
  destruct needsSsim; simpl.
  - destruct (Pipeline.similarity a) as [sim|e]; simpl; [|discriminate].
    destruct (Pipeline.Qltb sim thr); intros H; inversion H; reflexivity.
  - intros H; inversion H; reflexivity.
Qed.

Lemma evaluateCandidate_ssim thr a f l c :
  Pipeline.evaluateCandidate true thr a f l = Ok (Some c) ->
  exists sim, Pipeline.c_ssim c = Some sim /\ Qle thr sim.
Proof.
  unfold Pipeline.evaluateCandidate. destruct (Pipeline.read a) as [[buf size]|e]; simpl; [|discriminate].
  destruct (Pipeline.similarity a) as [sim|e]; simpl; [|discriminate].
  unfold Pipeline.Qltb. destruct (Qle_bool thr sim) eqn:E; simpl; [|discriminate].
  intros H; inversion H; subst; simpl. exists sim. split; [reflexivity|].
  apply Qle_bool_iff in E. exact E.
Qed.

Lemma candidate_catch_some r c :
  Pipeline.candidate_catch r = Ok (Some c) -> r = Ok (Some c).
Proof.
  destruct r as [o|e]; simpl; [intros H; inversion H; reflexivity|].
  destruct (includes "Missing optimizer binary" (message e)); discriminate.
Qed.

Lemma push_slot_ok acc slot cs :
  Pipeline.push_slot acc slot = Ok cs ->
  exists cs0 o, acc = Ok cs0 /\ Pipeline.candidate_catch slot = Ok o /\ cs = app cs0 (option_list o).
Proof.
  unfold Pipeline.push_slot. destruct acc as [cs0|e]; simpl; [|discriminate].
  destruct (Pipeline.candidate_catch slot) as [o|e]; simpl; [|discriminate].
  intros H; inversion H; subst. eauto.
Qed.

Lemma push_fold_forall {X : Type} (P : Pipeline.CandidateResult -> Prop)
    (f : X -> Exn (option Pipeline.CandidateResult)) (xs : list X) :
  (forall x c, f x = Ok (Some c) -> P c) ->
  forall acc cs,
    (forall cs0, acc = Ok cs0 -> Forall P cs0) ->
    fold_left (fun acc x => Pipeline.push_slot acc (f x)) xs acc = Ok cs -> Forall P cs.
Proof.
  intros Hf. induction xs as [|x xs IH]; intros acc cs Hacc; simpl.
  - intros ->. apply Hacc. reflexivity.
  - apply IH. intros cs1 H1.
    destruct (push_slot_ok _ _ _ H1) as (cs0 & o & -> & Hc & ->).
    apply Forall_app. split; [apply Hacc; reflexivity|].
    destruct o as [c|]; simpl; [|constructor].
    constructor; [|constructor]. apply (Hf x). apply candidate_catch_some. exact Hc.
Qed.

Lemma push_slot_none acc slot :
  Pipeline.candidate_catch slot = Ok None -> Pipeline.push_slot acc slot = acc.
Proof.
  intros H. unfold Pipeline.push_slot. rewrite H.
  destruct acc as [cs|e]; simpl; [rewrite app_nil_r|]; reflexivity.
Qed.

Lemma fold_push_none {X : Type} (f : X -> Exn (option Pipeline.CandidateResult)) (xs : list X) acc :
  (forall x, Pipeline.candidate_catch (f x) = Ok None) ->
  fold_left (fun acc x => Pipeline.push_slot acc (f x)) xs acc = acc.
Proof.
  intros Hf. revert acc. induction xs as [|x xs IH]; intros acc; simpl; [reflexivity|].
  rewrite push_slot_none by apply Hf. apply IH.
Qed.

(** C1: whenever the candidate builder of the optimise action returns
    its accepted candidates [cs] (and a WebP input is re-encoded), an
    empty [cs] makes the action a skip whose reason is "No candidate met
    quality threshold", and a non-empty [cs] makes [pickBest] select a
    member of [cs] whose byte size is minimal among them. *)
Theorem optimize_picks_smallest_candidate
    opo dp rt inputPath (originalBuffer : bytes) s commonRoot backupDir w st type cs :
  getOutputFormatForPath inputPath = Some type ->
  (type = webp -> reencodeExistingWebp s = true) ->
  Actions.build_candidates s type w = Ok cs ->
  (cs = [] ->
     Actions.runOptimizeAction opo dp rt inputPath originalBuffer s commonRoot backupDir w st
     = (Ok (Actions.skipDecision (Z.of_nat (length originalBuffer))
              "No candidate met quality threshold"), st)) /\
  (cs <> [] ->
     exists b, Pipeline.pickBest cs = Some b /\ In b cs /\
               Forall (fun c => (Pipeline.c_bytes b <= Pipeline.c_bytes c)%Z) cs).
Proof.
  intros Hty Hwebp Hb. split.
  - intros ->. unfold Actions.runOptimizeAction. rewrite Hty, Hb.
    destruct type; simpl; try reflexivity.
    rewrite (Hwebp eq_refl). reflexivity.
  - intros Hne. apply pickBest_min. exact Hne.
Qed.

Lemma optimize_picks_smallest_candidate_witness :
  getOutputFormatForPath "photo.jpg" = Some jpeg /\
  Actions.build_candidates Samples.settings0 jpeg Samples.world0 = Ok Samples.jpeg_ladder_cs /\
  Samples.jpeg_ladder_cs <> [] /\
  ((Samples.jpeg_ladder_cs = [] ->
      Actions.runOptimizeAction Samples.opo0 Samples.dp0 Samples.rt0 "photo.jpg" (repeat Byte.x00 100)
        Samples.settings0 "" None Samples.world0 Samples.st0
      = (Ok (Actions.skipDecision (Z.of_nat (length (repeat Byte.x00 100)))
               "No candidate met quality threshold"), Samples.st0)) /\
   (Samples.jpeg_ladder_cs <> [] ->
      exists b, Pipeline.pickBest Samples.jpeg_ladder_cs = Some b /\ In b Samples.jpeg_ladder_cs /\
                Forall (fun c => (Pipeline.c_bytes b <= Pipeline.c_bytes c)%Z) Samples.jpeg_ladder_cs)).
Proof.
  split; [vm_compute; reflexivity|].
  split; [vm_compute; reflexivity|].
  split; [vm_compute; discriminate|].
  apply (optimize_picks_smallest_candidate Samples.opo0 Samples.dp0 Samples.rt0 "photo.jpg"
           (repeat Byte.x00 100) Samples.settings0 "" None Samples.world0 Samples.st0 jpeg
           Samples.jpeg_ladder_cs).
  - vm_compute; reflexivity.
  - discriminate.
  - vm_compute; reflexivity.
Defined.

(** C2: the smart quality search takes its target threshold from
    [smartTarget] (0.999, 0.995, 0.99, 0.98, or qualityGuardrail/100 for
    custom), starts from the bounds [10, 95] with the lower bound raised
    to 70 for a non-photo JPEG, and runs 4, 6 or 8 iterations for the
    fast, balanced and thorough speeds; its first encode is at
    floor((lo + hi) / 2), it encodes at most that many qualities, all
    within the initial bounds, and any result it returns has
    mssim >= threshold and bandingRisk < 0.05. *)
Theorem smart_search_thresholds_and_result
    (measure : nat -> Z -> option (Smart.MetricResult * bytes)) (isPhoto : bool) s (format : ImgFormat) :
  Smart.targetThreshold s =
    match smartTarget s with
    | visually_lossless => 999 # 1000 | high => 995 # 1000 | balanced_target => 99 # 100
    | small => 98 # 100 | custom => (qualityGuardrail s / 100)%Q
    end /\
  Smart.iterations s =
    match optimizationSpeed s with fast => 4%nat | balanced_speed => 6%nat | thorough => 8%nat end /\
  Smart.initial_min isPhoto format = (if negb isPhoto && format_eqb format jpeg then 70 else 10)%Z /\
  Smart.initial_max = 95%Z /\
  (exists qs, snd (Smart.findOptimalQuality_traced measure isPhoto s format)
              = ((Smart.initial_min isPhoto format + Smart.initial_max) / 2)%Z :: qs) /\
  (length (snd (Smart.findOptimalQuality_traced measure isPhoto s format)) <= Smart.iterations s)%nat /\
  Forall (fun q => (Smart.initial_min isPhoto format <= q <= 95)%Z)
    (snd (Smart.findOptimalQuality_traced measure isPhoto s format)) /\
  (forall r, Smart.findOptimalQuality measure isPhoto s format = Some r ->
     Qle (Smart.targetThreshold s) (Smart.mssim (Smart.metrics r)) /\
     Qlt (Smart.bandingRisk (Smart.metrics r)) (5 # 100)).
Proof.
  assert (Hmin : (10 <= Smart.initial_min isPhoto format <= 70)%Z)
    by (unfold Smart.initial_min; destruct (negb isPhoto && format_eqb format jpeg); lia).
  destruct (search_loop_sound measure (Smart.targetThreshold s) (Smart.initial_min isPhoto format)
              (Smart.iterations s) 0 (Smart.initial_min isPhoto format) Smart.initial_max None
              ltac:(lia) ltac:(unfold Smart.initial_max; lia) ltac:(unfold Smart.initial_max; lia) I)
    as (Hlen & Hrange & Hres).
  split; [unfold Smart.targetThreshold; destruct (smartTarget s); reflexivity|].
  split; [unfold Smart.iterations; destruct (optimizationSpeed s); reflexivity|].
  split; [reflexivity|].
  split; [reflexivity|].
  split.
  { apply search_loop_first. unfold Smart.iterations; destruct (optimizationSpeed s); lia. }
  split; [exact Hlen|].
  split; [exact Hrange|].
  intros r Hr. unfold Smart.findOptimalQuality, Smart.findOptimalQuality_traced in Hr.
  rewrite Hr in Hres. destruct Hres as (H1 & H2 & _).
  split; [apply Qle_bool_iff; exact H1|].
  apply Qnot_le_lt. intros Hle. apply Qle_bool_iff in Hle. congruence.
Qed.

(** C6: no method call moves a job out of a terminal state (success,
    failed, skipped, cancelled), [running] is entered only from
    [queued], and [skipped] is entered from [queued] and from
    [running]; but [cancel] on a job already cancelled is not a no-op:
    it emits a second [change] event. *)
Theorem job_state_machine_terminal_states :
  (forall m j j', Jobs.terminal (Jobs.status j) = true -> Jobs.call m j = Ok j' ->
     Jobs.status j' = Jobs.status j) /\
  (forall m j j', Jobs.call m j = Ok j' -> Jobs.status j' = Jobs.running ->
     Jobs.status j <> Jobs.running -> Jobs.status j = Jobs.queued) /\
  (forall reason ob j, Jobs.status j = Jobs.queued \/ Jobs.status j = Jobs.running ->
     Jobs.status (Jobs.skip reason ob j) = Jobs.skipped) /\
  (let j := Jobs.cancel Jobs.new_job in
   Jobs.status j = Jobs.cancelled /\ Jobs.terminal (Jobs.status j) = true /\
   Jobs.cancel j <> j /\
   length (Jobs.emitted (Jobs.cancel j)) = 2%nat /\
   map Jobs.ev_status (Jobs.emitted (Jobs.cancel j)) = [Jobs.cancelled; Jobs.cancelled]).
Proof.
  split; [|split; [|split]].
  - intros m [st pr rs em] j' Ht Hc; simpl in *.
    destruct m; simpl in Hc;
      [unfold Jobs.start in Hc|unfold Jobs.updateProgress in Hc|unfold Jobs.succeed in Hc
      |unfold Jobs.fail in Hc|unfold Jobs.cancel in Hc|unfold Jobs.skip in Hc];
      simpl in Hc; destruct st; simpl in *; try discriminate; inversion Hc; subst; reflexivity.
  - intros m [st pr rs em] j' Hc Hr Hne; simpl in *.
    destruct m; simpl in Hc;
      [unfold Jobs.start in Hc|unfold Jobs.updateProgress in Hc|unfold Jobs.succeed in Hc
      |unfold Jobs.fail in Hc|unfold Jobs.cancel in Hc|unfold Jobs.skip in Hc];
      simpl in Hc; destruct st; simpl in *; try discriminate; inversion Hc; subst;
      simpl in *; try discriminate; try reflexivity; congruence.
  - intros reason ob [st pr rs em] [H|H]; simpl in H; subst; reflexivity.
  - vm_compute. split; [reflexivity|]. split; [reflexivity|].
    split; [discriminate|]. split; reflexivity.
Qed.

Lemma finish_action_decision (rt : string -> Actions.Applied -> string -> bool -> Exn string) s inputPath ob applied before_write w st r st' :
  Actions.finish_action rt s inputPath ob applied before_write w st = (Ok r, st') ->
  let outLen := Z.of_nat (length (Actions.ap_buffer applied)) in
  (shouldSkipIfLarger ob outLen s = true /\ r = (Actions.skipDecision ob "Skipped (larger)", "")) \/
  (shouldSkipIfLarger ob outLen s = false /\ Actions.ad_status (fst r) = Actions.a_success /\
   Actions.ad_originalBytes (fst r) = ob /\ Actions.ad_outputBytes (fst r) = outLen /\
   Actions.ad_bytesSaved (fst r) = Z.max 0 (ob - outLen)).
Proof.
  intros H. cbv zeta. unfold Actions.finish_action in H.
  destruct (shouldSkipIfLarger ob (Z.of_nat (length (Actions.ap_buffer applied))) s) eqn:Hs.
  - left. inversion H; subst. split; reflexivity.
  - right. split; [reflexivity|].
    destruct (rt inputPath applied (namingPattern s) (Actions.is_subfolder (outputMode s))) as [p|e];
      [|discriminate].
    destruct (before_write st) as [[u|e] st1]; [|discriminate].
    destruct (Actions.writeValidatedAtomic p (Actions.ap_buffer applied) (Actions.writeIO w) st1)
      as [[u'|e] st2]; [|discriminate].
    inversion H; subst. simpl. repeat split; reflexivity.
Qed.

(** C3: when the optimise action reports [success] for a file, its
    reported [bytesSaved] is max(0, originalBytes - outputBytes), its
    [originalBytes] is the input's length, and, when
    [allowLargerOutput] is false, its [outputBytes] is strictly smaller
    than its [originalBytes]; a chosen candidate at least as large as
    the original is skipped with reason "Skipped (larger)". *)
Theorem optimize_success_is_smaller
    opo dp rt inputPath (originalBuffer : bytes) s commonRoot backupDir w st d st' :
  Actions.runOptimizeAction opo dp rt inputPath originalBuffer s commonRoot backupDir w st = (Ok d, st') ->
  (Actions.ad_status d = Actions.a_success ->
     Actions.ad_originalBytes d = Z.of_nat (length originalBuffer) /\
     Actions.ad_bytesSaved d = Z.max 0 (Actions.ad_originalBytes d - Actions.ad_outputBytes d) /\
     (allowLargerOutput s = false -> (Actions.ad_outputBytes d < Actions.ad_originalBytes d)%Z)) /\
  (forall ob applied before_write w' st0,
     allowLargerOutput s = false -> (ob <= Z.of_nat (length (Actions.ap_buffer applied)))%Z ->
     Actions.finish_action rt s inputPath ob applied before_write w' st0
     = (Ok (Actions.skipDecision ob "Skipped (larger)", ""), st0)).
Proof.
  intros H. split.
  - intros Hsucc. unfold Actions.runOptimizeAction in H.
    destruct (getOutputFormatForPath inputPath) as [type|];
      [|inversion H; subst; discriminate].
    destruct (Actions.build_candidates s type w) as [cs|e]; [|inversion H; subst; discriminate].
    destruct (format_eqb type webp && negb (reencodeExistingWebp s));
      [inversion H; subst; discriminate|].
    destruct (Pipeline.pickBest cs) as [best|]; [|inversion H; subst; discriminate].
    match type of H with
    | context [Actions.applyExportPreset ?dp' ?s' ?i' ?t' ?b' ?ty'] =>
        destruct (Actions.applyExportPreset dp' s' i' t' b' ty') as [applied|e]; [|discriminate]
    end.
    match type of H with
    | context [Actions.finish_action ?rt' ?s' ?i' ?ob' ?ap' ?bw' ?w' ?st''] =>
        destruct (Actions.finish_action rt' s' i' ob' ap' bw' w' st'') as [[r|e] st2] eqn:Hf;
          [|discriminate]
    end.
    destruct r as [d' p]. inversion H; subst.
    destruct (finish_action_decision _ _ _ _ _ _ _ _ _ _ Hf) as [[Hs Hr]|(Hs & _ & Ho & Hout & Hsv)].
    + inversion Hr; subst. discriminate.
    + simpl in *. rewrite Ho, Hout, Hsv. split; [reflexivity|]. split; [reflexivity|].
      intros Hal. unfold shouldSkipIfLarger in Hs. rewrite Hal in Hs. simpl in Hs.
      apply Z.leb_gt in Hs. exact Hs.
  - intros ob applied before_write w' st0 Hal Hle.
    unfold Actions.finish_action, shouldSkipIfLarger. rewrite Hal. simpl.
    apply Z.leb_le in Hle. rewrite Hle. reflexivity.
Qed.

Lemma optimize_success_is_smaller_witness :
  Samples.jpeg_run = (Ok Samples.jpeg_run_decision, snd Samples.jpeg_run) /\
  Actions.ad_status Samples.jpeg_run_decision = Actions.a_success /\
  (Actions.ad_status Samples.jpeg_run_decision = Actions.a_success ->
     Actions.ad_originalBytes Samples.jpeg_run_decision = Z.of_nat (length (repeat Byte.x00 100)) /\
     Actions.ad_bytesSaved Samples.jpeg_run_decision =
       Z.max 0 (Actions.ad_originalBytes Samples.jpeg_run_decision
                - Actions.ad_outputBytes Samples.jpeg_run_decision) /\
     (allowLargerOutput Samples.settings0 = false ->
        (Actions.ad_outputBytes Samples.jpeg_run_decision
         < Actions.ad_originalBytes Samples.jpeg_run_decision)%Z)) /\
  (forall ob applied before_write w' st0,
     allowLargerOutput Samples.settings0 = false ->
     (ob <= Z.of_nat (length (Actions.ap_buffer applied)))%Z ->
     Actions.finish_action Samples.rt0 Samples.settings0 "photo.jpg" ob applied before_write w' st0
     = (Ok (Actions.skipDecision ob "Skipped (larger)", ""), st0)).
Proof.
  split; [vm_compute; reflexivity|].
  split; [vm_compute; reflexivity|].
  apply (optimize_success_is_smaller Samples.opo0 Samples.dp0 Samples.rt0 "photo.jpg"
           (repeat Byte.x00 100) Samples.settings0 "" None Samples.world0 Samples.st0
           Samples.jpeg_run_decision (snd Samples.jpeg_run)).
  vm_compute; reflexivity.
Defined.

Lemma ladder_step_ssim thr a f q c :
  Pipeline.ladder_step thr a f q = Ok (Some c) ->
  exists sim, Pipeline.c_ssim c = Some sim /\ Qle thr sim.
Proof.
  unfold Pipeline.ladder_step.
  destruct (match f with webp => Pipeline.encodeCwebp a | _ => Pipeline.encodeMozjpeg a end);
    simpl; [apply evaluateCandidate_ssim|discriminate].
Qed.

Lemma png_range_step_ssim thr a r c :
  Pipeline.png_range_step thr a r = Ok (Some c) ->
  exists sim, Pipeline.c_ssim c = Some sim /\ Qle thr sim.
Proof.
  unfold Pipeline.png_range_step.
  destruct (Pipeline.runPngquant a); simpl; [|discriminate].
  destruct (Pipeline.runOxipng a); simpl; [apply evaluateCandidate_ssim|discriminate].
Qed.

Lemma png_lossless_step_label thr a c :
  Pipeline.png_lossless_step thr a = Ok (Some c) -> Pipeline.qualityLabel c = "oxipng-lossless".
Proof.
  unfold Pipeline.png_lossless_step.
  destruct (Pipeline.runOxipng a); simpl; [apply evaluateCandidate_label|discriminate].
Qed.

(** C4: with the SSIM guard on, the ladder threshold is 0.995, or 0.99
    when [aggressivePng] is set, and every candidate the ladder builders
    accept other than the lossless oxipng one carries an MSSIM at least
    that threshold; with the guard off the threshold is 0 and a
    candidate is accepted whatever its similarity in [0, 1]. *)
Theorem ladder_candidates_meet_ssim_threshold s type w cs :
  smartCompressionMode s = false ->
  Actions.build_candidates s type w = Ok cs ->
  (qualityGuardrailSsim s = true ->
     getSsimThreshold s = (if aggressivePng s then 99 # 100 else 995 # 1000)%Q /\
     Forall (fun c => Pipeline.qualityLabel c <> "oxipng-lossless" ->
                exists sim, Pipeline.c_ssim c = Some sim /\ Qle (getSsimThreshold s) sim) cs) /\
  (qualityGuardrailSsim s = false ->
     getSsimThreshold s = 0%Q /\
     forall a f l buf size sim,
       Pipeline.read a = Ok (buf, size) -> Pipeline.similarity a = Ok sim -> Qle 0 sim ->
       exists c, Pipeline.evaluateCandidate true (getSsimThreshold s) a f l = Ok (Some c)).
Proof.
  intros Hsm Hb. split.
  - intros Hg. split; [unfold getSsimThreshold; rewrite Hg; reflexivity|].
    set (P := fun c => Pipeline.qualityLabel c <> "oxipng-lossless" ->
                exists sim, Pipeline.c_ssim c = Some sim /\ Qle (getSsimThreshold s) sim).
    assert (Hnil : forall cs0 : list Pipeline.CandidateResult, Ok [] = Ok cs0 -> Forall P cs0)
      by (intros cs0 H; inversion H; constructor).
    destruct type; unfold Actions.build_candidates in Hb.
    + unfold Pipeline.buildJpegCandidates in Hb. rewrite Hsm in Hb. cbv beta iota zeta in Hb.
      refine (push_fold_forall P
                (fun q => Pipeline.ladder_step (getSsimThreshold s) (Actions.ladderSlot w q) jpeg q)
                _ _ _ _ Hnil Hb).
      intros q c Hc _. eapply ladder_step_ssim. exact Hc.
    + unfold Pipeline.buildPngCandidates in Hb. cbv beta zeta in Hb.
      refine (push_fold_forall P
                (fun r => Pipeline.png_range_step (getSsimThreshold s) (Actions.rangeSlot w r) r)
                _ _ _ _ _ Hb).
      * intros r c Hc _. eapply png_range_step_ssim. exact Hc.
      * intros cs0 H. destruct (push_slot_ok _ _ _ H) as (cs1 & o & Heq & Hc & ->).
        inversion Heq; subst. destruct o as [c|]; simpl; [|constructor].
        constructor; [|constructor]. intros Hl. exfalso. apply Hl.
        eapply png_lossless_step_label. apply candidate_catch_some. exact Hc.
    + destruct (reencodeExistingWebp s); [|inversion Hb; constructor].
      unfold Pipeline.buildWebpCandidates in Hb. rewrite Hsm in Hb. cbv beta iota zeta in Hb.
      refine (push_fold_forall P
                (fun q => Pipeline.ladder_step (getSsimThreshold s) (Actions.ladderSlot w q) webp q)
                _ _ _ _ Hnil Hb).
      intros q c Hc _. eapply ladder_step_ssim. exact Hc.
  - intros Hg. unfold getSsimThreshold. rewrite Hg. split; [reflexivity|].
    intros a f l buf size sim Hr Hs Hle. unfold Pipeline.evaluateCandidate.
    rewrite Hr. simpl. rewrite Hs. simpl. unfold Pipeline.Qltb.
    apply Qle_bool_iff in Hle. simpl in Hle. rewrite Hle. simpl. eexists; reflexivity.
Qed.

Lemma ladder_candidates_meet_ssim_threshold_witness :
  smartCompressionMode Samples.settings0 = false /\
  Actions.build_candidates Samples.settings0 jpeg Samples.world0 = Ok Samples.jpeg_ladder_cs /\
  Samples.jpeg_ladder_cs <> [] /\
  (qualityGuardrailSsim Samples.settings0 = true ->
     getSsimThreshold Samples.settings0 = (if aggressivePng Samples.settings0 then 99 # 100 else 995 # 1000)%Q /\
     Forall (fun c => Pipeline.qualityLabel c <> "oxipng-lossless" ->
                exists sim, Pipeline.c_ssim c = Some sim /\ Qle (getSsimThreshold Samples.settings0) sim)
       Samples.jpeg_ladder_cs) /\
  (qualityGuardrailSsim Samples.settings0 = false ->
     getSsimThreshold Samples.settings0 = 0%Q /\
     forall a f l buf size sim,
       Pipeline.read a = Ok (buf, size) -> Pipeline.similarity a = Ok sim -> Qle 0 sim ->
       exists c, Pipeline.evaluateCandidate true (getSsimThreshold Samples.settings0) a f l = Ok (Some c)).
Proof.
  split; [reflexivity|].
  split; [vm_compute; reflexivity|].
  split; [vm_compute; discriminate|].
  apply (ladder_candidates_meet_ssim_threshold Samples.settings0 jpeg Samples.world0 Samples.jpeg_ladder_cs).
  - reflexivity.
  - vm_compute; reflexivity.
Defined.

(** C7: when pngquant exits with code 99 on every quality range, each
    range's candidate is dropped ([runPngquant] throws the "output would
    be larger" error and the candidate [catch] swallows it), the PNG
    candidates are exactly those of the oxipng-lossless attempt, and
    when that attempt yields nothing either, the optimise action ends as
    a skip with the reason "No candidate met quality threshold", not as
    a failure. *)
Theorem pngquant_exit_99_is_skip s w (m : string) :
  (forall r, Pipeline.found (Actions.rangeSlot w r) "pngquant" = true /\
             Pipeline.run (Actions.rangeSlot w r) "pngquant" = Some (ToolError m (Some 99%Z))) ->
  (forall r, Pipeline.runPngquant (Actions.rangeSlot w r) = Throw Pipeline.pngquantSkipped /\
             Pipeline.candidate_catch (Pipeline.png_range_step (getSsimThreshold s) (Actions.rangeSlot w r) r)
             = Ok None) /\
  Actions.build_candidates s png w =
    Pipeline.push_slot (Ok []) (Pipeline.png_lossless_step (getSsimThreshold s) (Actions.losslessSlot w)) /\
  (Pipeline.candidate_catch (Pipeline.png_lossless_step (getSsimThreshold s) (Actions.losslessSlot w)) = Ok None ->
   forall opo dp rt inputPath (buf : bytes) commonRoot backupDir st,
     getOutputFormatForPath inputPath = Some png ->
     Actions.runOptimizeAction opo dp rt inputPath buf s commonRoot backupDir w st =
       (Ok (Actions.skipDecision (Z.of_nat (length buf)) "No candidate met quality threshold"), st)).
Proof.
  intros H99.
  assert (Hq : forall r, Pipeline.runPngquant (Actions.rangeSlot w r) = Throw Pipeline.pngquantSkipped).
  { intros r. destruct (H99 r) as [Hf Hr].
    unfold Pipeline.runPngquant, Pipeline.resolveToolPath. rewrite Hf. simpl.
    unfold Pipeline.runTool. rewrite Hr. reflexivity. }
  assert (Hc : forall r, Pipeline.candidate_catch
                 (Pipeline.png_range_step (getSsimThreshold s) (Actions.rangeSlot w r) r) = Ok None).
  { intros r. unfold Pipeline.png_range_step. rewrite Hq. reflexivity. }
  assert (Hb : Actions.build_candidates s png w =
    Pipeline.push_slot (Ok []) (Pipeline.png_lossless_step (getSsimThreshold s) (Actions.losslessSlot w))).
  { unfold Actions.build_candidates, Pipeline.buildPngCandidates. cbv beta zeta.
    apply (fold_push_none
             (fun r => Pipeline.png_range_step (getSsimThreshold s) (Actions.rangeSlot w r) r)).
    exact Hc. }
  split; [intros r; split; [apply Hq|apply Hc]|].
  split; [exact Hb|].
  intros Hl opo dp rt inputPath buf commonRoot backupDir st Hty.
  unfold Actions.runOptimizeAction. rewrite Hty, Hb.
  rewrite (push_slot_none (Ok []) _ Hl). reflexivity.
Qed.

Lemma pngquant_exit_99_is_skip_witness :
  (forall r, Pipeline.found (Actions.rangeSlot Samples.world_png99 r) "pngquant" = true /\
             Pipeline.run (Actions.rangeSlot Samples.world_png99 r) "pngquant"
             = Some (ToolError "pngquant exited with code 99" (Some 99%Z))) /\
  Pipeline.candidate_catch (Pipeline.png_lossless_step (getSsimThreshold Samples.settings0)
                              (Actions.losslessSlot Samples.world_png99)) = Ok None /\
  Actions.runOptimizeAction Samples.opo0 Samples.dp0 Samples.rt0 "icon.png" (repeat Byte.x00 10)
    Samples.settings0 "" None Samples.world_png99 Samples.st0 =
  (Ok (Actions.skipDecision 10 "No candidate met quality threshold"), Samples.st0).
Proof.
  assert (H99 : forall r, Pipeline.found (Actions.rangeSlot Samples.world_png99 r) "pngquant" = true /\
             Pipeline.run (Actions.rangeSlot Samples.world_png99 r) "pngquant"
             = Some (ToolError "pngquant exited with code 99" (Some 99%Z)))
    by (intros r; split; reflexivity).
  assert (Hl : Pipeline.candidate_catch (Pipeline.png_lossless_step (getSsimThreshold Samples.settings0)
                              (Actions.losslessSlot Samples.world_png99)) = Ok None)
    by (vm_compute; reflexivity).
  split; [exact H99|]. split; [exact Hl|].
  destruct (pngquant_exit_99_is_skip Samples.settings0 Samples.world_png99 _ H99) as (_ & _ & H).
  apply (H Hl). vm_compute; reflexivity.
Defined.

Lemma string_length_app (s1 s2 : string) :
  String.length (s1 ++ s2) = (String.length s1 + String.length s2)%nat.
Proof. induction s1 as [|c s1 IH]; simpl; [reflexivity|]. rewrite IH. reflexivity. Qed.

Lemma replace_char_length c d s : String.length (Actions.replace_char c d s) = String.length s.
Proof. induction s as [|x s IH]; simpl; [reflexivity|]. rewrite IH. reflexivity. Qed.

Lemma tmpPathFor_ne target stamp rand : AtomicWrite.tmpPathFor target stamp rand <> target.
Proof.
  intros H. apply (f_equal String.length) in H. unfold AtomicWrite.tmpPathFor in H.
  rewrite !string_length_app in H. simpl in H. lia.
Qed.

Lemma backupPathFor_ne bd target : AtomicWrite.backupPathFor bd target <> target.
Proof.
  intros H. apply (f_equal String.length) in H. unfold AtomicWrite.backupPathFor in H.
  rewrite !string_length_app, !replace_char_length in H. simpl in H. lia.
Qed.

Lemma try_block_throw_target target tmpPath buffer options w fs e fs1 :
  tmpPath <> target ->
  AtomicWrite.try_block target tmpPath buffer options w fs = (Throw e, fs1) ->
  fs1 !! target = fs !! target.
Proof.
  intros Hne H. unfold AtomicWrite.try_block in H.
  pose proof (fun bd => backupPathFor_ne bd target) as Hbp.
  repeat (case_match; simplify_eq/=);
    repeat first [rewrite lookup_insert_ne by congruence | rewrite lookup_delete_ne by congruence];
    reflexivity.
Qed.

(** C5 (amended): when [atomicWrite] fails at any step it returns
    [success = false] with an error message and the bytes at the target
    path are those it had before the call; the temp file is gone
    afterwards when the cleanup [rm] succeeds (a failing cleanup is
    ignored and leaves it in place). *)
Theorem atomicWrite_failure_keeps_target target buffer options stamp rand w fs r fs' :
  AtomicWrite.atomicWrite target buffer options stamp rand w fs = (r, fs') ->
  AtomicWrite.success r = false ->
  (exists msg, AtomicWrite.error r = Some msg) /\
  fs' !! target = fs !! target /\
  (AtomicWrite.rmIO w = None -> fs' !! AtomicWrite.tmpPathFor target stamp rand = None).
Proof.
  intros H Hs. unfold AtomicWrite.atomicWrite in H.
  destruct (AtomicWrite.try_block target (AtomicWrite.tmpPathFor target stamp rand) buffer options w fs)
    as [[bp|e] fs1] eqn:Ht.
  - inversion H; subst. discriminate.
  - pose proof (try_block_throw_target _ _ _ _ _ _ _ _ (tmpPathFor_ne target stamp rand) Ht) as Hk.
    inversion H; subst; simpl. split; [eexists; reflexivity|].
    destruct (AtomicWrite.rmIO w) eqn:Hrm.
    + split; [exact Hk|discriminate].
    + split; [|intros _; apply lookup_delete_eq].
      rewrite lookup_delete_ne; [exact Hk|]. apply tmpPathFor_ne.
Qed.

Lemma atomicWrite_failure_keeps_target_witness :
  Samples.failed_write = (fst Samples.failed_write, snd Samples.failed_write) /\
  AtomicWrite.success (fst Samples.failed_write) = false /\
  (exists msg, AtomicWrite.error (fst Samples.failed_write) = Some msg) /\
  snd Samples.failed_write !! "out/a.jpg" = Samples.target_before !! "out/a.jpg" /\
  (AtomicWrite.rmIO Samples.fs_write_fails_rm_ok = None ->
     snd Samples.failed_write !! AtomicWrite.tmpPathFor "out/a.jpg" "1700000000000" "9f3a" = None).
Proof.
  split; [vm_compute; reflexivity|].
  split; [vm_compute; reflexivity|].
  apply (atomicWrite_failure_keeps_target "out/a.jpg" [Byte.x01; Byte.x02; Byte.x03]
           Samples.write_options0 "1700000000000" "9f3a" Samples.fs_write_fails_rm_ok
           Samples.target_before (fst Samples.failed_write) (snd Samples.failed_write)).
  - vm_compute; reflexivity.
  - vm_compute; reflexivity.
Defined.

(** A failed write whose cleanup [rm] fails leaves the partly written
    temp file in place, against "the temporary file is removed". *)
Lemma atomicWrite_failed_cleanup_leaves_temp :
  AtomicWrite.success (fst Samples.failed_write_rm_fails) = false /\
  snd Samples.failed_write_rm_fails !! AtomicWrite.tmpPathFor "out/a.jpg" "1700000000000" "9f3a"
  = Some [Byte.x01; Byte.x02] /\
  snd Samples.failed_write_rm_fails !! "out/a.jpg" = Some [Byte.x07].
Proof. vm_compute. split; [reflexivity|split; reflexivity]. Qed.

Lemma fold_on_response_counts mode (respond : string -> Run.WorkerResponse) (l : list string) c :
  (Run.skipped c + Run.failed c <= Run.done c)%nat ->
  let c' := fold_left (fun c p => Run.on_response mode c (respond p)) l c in
  Run.done c' = (Run.done c + length l)%nat /\ (Run.skipped c' + Run.failed c' <= Run.done c')%nat.
Proof.
  revert c. induction l as [|p l IH]; intros c Hc; simpl; [split; [lia|exact Hc]|].
  destruct (IH (Run.on_response mode c (respond p))) as [H1 H2].
  - unfold Run.on_response. destruct (respond p); simpl; [lia|].
    destruct (Run.inferFileStatus _ _ _ _); simpl; lia.
  - split; [|exact H2]. rewrite H1. unfold Run.on_response.
    destruct (respond p); simpl; lia.
Qed.

Lemma fold_on_cancelled_counts (l : list string) c :
  (Run.skipped c + Run.failed c <= Run.done c)%nat ->
  let c' := fold_left (fun c _ => Run.on_cancelled c) l c in
  Run.done c' = (Run.done c + length l)%nat /\ Run.skipped c' = (Run.skipped c + length l)%nat /\
  (Run.skipped c' + Run.failed c' <= Run.done c')%nat.
Proof.
  revert c. induction l as [|p l IH]; intros c Hc; simpl; [lia|].
  destruct (IH (Run.on_cancelled c)) as (H1 & H2 & H3); [simpl; lia|].
  simpl in H1, H2. split; [lia|]. split; [lia|exact H3].
Qed.

(** C8 (amended): in the summary of every run, [processedFiles] equals
    [totalFiles] (a file that is done, skipped, failed or cancelled
    counts as processed), [skippedFiles] and [failedFiles] together are
    at most [processedFiles], every file still queued at cancellation is
    counted in [skippedFiles], and [totalSavedBytes] is
    max(0, totalOriginalBytes - totalOutputBytes). *)
Theorem executeRun_summary_counts mode resolved respond stop :
  let sm := Run.executeRun mode resolved respond stop in
  Run.processedFiles sm = Run.totalFiles sm /\
  (Run.skippedFiles sm + Run.failedFiles sm <= Run.processedFiles sm)%nat /\
  (forall k, stop = Some k -> (length resolved - k <= Run.skippedFiles sm)%nat) /\
  Run.totalSavedBytes sm = Z.max 0 (Run.s_totalOriginalBytes sm - Run.s_totalOutputBytes sm).
Proof.
  unfold Run.executeRun; simpl.
  set (taken := match stop with None => resolved | Some k => firstn k resolved end).
  destruct (fold_on_response_counts mode respond taken Run.counters0 ltac:(simpl; lia)) as [D1 S1].
  set (c1 := fold_left (fun c p => Run.on_response mode c (respond p)) taken Run.counters0) in *.
  destruct stop as [k|]; simpl.
  - destruct (fold_on_cancelled_counts (skipn (length taken) resolved) c1 S1) as (D2 & K2 & S2).
    split; [rewrite D2, D1; simpl; subst taken; rewrite length_skipn, length_firstn; lia|].
    split; [exact S2|]. split; [|reflexivity].
    intros k' Hk. inversion Hk; subst k'. rewrite K2. subst taken.
    rewrite length_skipn, length_firstn. lia.
  - split; [rewrite D1; simpl; subst taken; lia|].
    split; [exact S1|]. split; [discriminate|reflexivity].
Qed.

(** The identity "totalFiles = processed + skipped + failed + cancelled"
    fails on a one-file run whose only file fails: the summary reports
    one file, one processed and one failed. *)
Lemma executeRun_identity_fails_on_failed_file :
  let sm := Run.executeRun optimize ["a.jpg"] (fun p => Run.RespFailed p "cjpeg exited with code 1") None in
  Run.totalFiles sm = 1%nat /\ Run.processedFiles sm = 1%nat /\ Run.skippedFiles sm = 0%nat /\
  Run.failedFiles sm = 1%nat /\
  Run.totalFiles sm <> (Run.processedFiles sm + Run.skippedFiles sm + Run.failedFiles sm + 0)%nat.
Proof. vm_compute. repeat split; discriminate. Qed.

Lemma runOptimization_index fld p settings fp resp st r st' :
  Watch.runOptimization fld p settings fp resp st = (r, st') ->
  Watch.index st' = Watch.index st \/
  (Watch.index st' = Watch.markProcessed (Watch.index st) p fp /\
   exists ev, Watch.events st' = (Watch.events st ++ [ev])%list /\ Watch.e_status ev = Watch.w_success).
Proof.
  unfold Watch.runOptimization. intros H.
  destruct resp as [q msg|q ob o w rr]; [inversion H; subst; left; reflexivity|].
  set (action := match Watch.w_runMode settings with
                 | convertWebp => w | optimize => o | _ => match o with Some _ => o | None => w end end) in H.
  destruct (Watch.watch_status action) eqn:Hs; inversion H; subst; simpl.
  - right. split; [reflexivity|]. eexists; split; reflexivity.
  - left; reflexivity.
  - left; reflexivity.
Qed.

Lemma runOptimization_throw_index fld p settings fp resp st e st' :
  Watch.runOptimization fld p settings fp resp st = (Throw e, st') -> Watch.index st' = Watch.index st.
Proof.
  unfold Watch.runOptimization. intros H.
  destruct resp as [q msg|q ob o w rr]; [inversion H; subst; reflexivity|].
  destruct (Watch.watch_status _); discriminate.
Qed.

(** C9 (amended): when a queued file passes the stability wait and
    the folder's size cap, and its fingerprint (size, mtime and the fast
    hash) equals the one the processed index holds for its path,
    processing it again emits one [skipped] event with the message
    "Already processed" and neither runs the pipeline nor changes the
    index; and on any processing the index changes only by recording
    the file's fingerprint together with a [success] event. *)
Theorem watch_replay_is_already_processed sha item settings w st content mtime :
  Watch.isStable w = true ->
  Watch.file w = Some (content, mtime) ->
  ((0 <? Watch.maxFileSizeMb settings) &&
   (Watch.maxFileSizeMb settings * 1024 * 1024 <? Z.of_nat (length content)))%Z = false ->
  Watch.index st !! Watch.filePath item = Some (Watch.getFingerprint sha content mtime) ->
  Watch.processFileWithLifecycle sha item settings w st =
    Watch.emitOptimized st {| Watch.folder := Watch.q_folder item; Watch.e_path := Watch.filePath item;
                              Watch.e_status := Watch.w_skipped;
                              Watch.before := Z.of_nat (length content);
                              Watch.after := Z.of_nat (length content); Watch.saved := 0;
                              Watch.e_message := Some "Already processed" |} /\
  Watch.pipelineRuns (Watch.processFileWithLifecycle sha item settings w st) = Watch.pipelineRuns st /\
  Watch.index (Watch.processFileWithLifecycle sha item settings w st) = Watch.index st /\
  (forall item' settings' w' st0,
     let st1 := Watch.processFileWithLifecycle sha item' settings' w' st0 in
     Watch.index st1 = Watch.index st0 \/
     exists fp, Watch.index st1 = Watch.markProcessed (Watch.index st0) (Watch.filePath item') fp /\
       exists ev, Watch.events st1 = (Watch.events st0 ++ [ev])%list /\ Watch.e_status ev = Watch.w_success).
Proof.
  intros Hst Hf Hcap Hidx.
  assert (Hrun : Watch.processFileWithLifecycle sha item settings w st =
    Watch.emitOptimized st {| Watch.folder := Watch.q_folder item; Watch.e_path := Watch.filePath item;
                              Watch.e_status := Watch.w_skipped;
                              Watch.before := Z.of_nat (length content);
                              Watch.after := Z.of_nat (length content); Watch.saved := 0;
                              Watch.e_message := Some "Already processed" |}).
  { unfold Watch.processFileWithLifecycle. rewrite Hst, Hf. simpl. rewrite Hcap.
    unfold Watch.hasBeenProcessed. rewrite Hidx.
    rewrite !Z.eqb_refl, String.eqb_refl. reflexivity. }
  split; [exact Hrun|]. rewrite Hrun. split; [reflexivity|]. split; [reflexivity|].
  clear Hst Hf Hcap Hidx Hrun. intros item' settings' w' st0 st1. subst st1.
  unfold Watch.processFileWithLifecycle.
  destruct (Watch.isStable w'); simpl;
    [|destruct (Watch.retryCount item' <? 2)%nat; left; reflexivity].
  destruct (Watch.file w') as [[c m]|]; simpl;
    [|destruct (Watch.retryCount item' <? 2)%nat; left; reflexivity].
  destruct (_ && _)%Z; [left; reflexivity|].
  destruct (Watch.hasBeenProcessed _ _ _); [left; reflexivity|].
  destruct (Watch.runOptimization (Watch.q_folder item') (Watch.filePath item') settings'
              (Watch.getFingerprint sha c m) (Watch.poolResponse w') st0) as [[u|e] st2] eqn:Hr.
  - destruct (runOptimization_index _ _ _ _ _ _ _ _ Hr) as [H|[H H']]; [left; exact H|].
    right. exists (Watch.getFingerprint sha c m). split; [exact H|exact H'].
  - left. apply runOptimization_throw_index in Hr.
    destruct (Watch.retryCount item' <? 2)%nat; exact Hr.
Qed.

Lemma watch_replay_is_already_processed_witness :
  Watch.isStable Samples.small_world = true /\
  Watch.file Samples.small_world = Some (Samples.small_content, 1700000000000%Z) /\
  Watch.processFileWithLifecycle Samples.sha_const Samples.small_item Samples.nocap_settings
    Samples.small_world Samples.small_state =
  Watch.emitOptimized Samples.small_state
    {| Watch.folder := "in"; Watch.e_path := "in/icon.png"; Watch.e_status := Watch.w_skipped;
       Watch.before := 4; Watch.after := 4; Watch.saved := 0;
       Watch.e_message := Some "Already processed" |}.
Proof.
  split; [reflexivity|]. split; [reflexivity|].
  destruct (watch_replay_is_already_processed Samples.sha_const Samples.small_item Samples.nocap_settings
              Samples.small_world Samples.small_state Samples.small_content 1700000000000%Z)
    as [H _].
  - reflexivity.
  - reflexivity.
  - reflexivity.
  - vm_compute. reflexivity.
  - exact H.
Defined.

(** A file whose fingerprint is in the index is reported as "File too
    large", not "Already processed", once the folder's size cap is
    below its size: the size check comes before the index lookup. *)
Lemma watch_size_cap_precedes_index :
  Watch.index Samples.big_state !! "in/big.png"
    = Some (Watch.getFingerprint Samples.sha_const Samples.big_content 0) /\
  map Watch.e_message
    (Watch.events (Watch.processFileWithLifecycle Samples.sha_const Samples.big_item
                     Samples.cap1_settings Samples.big_world Samples.big_state))
  = [Some "File too large"].
Proof. split; vm_compute; reflexivity. Qed.

Lemma createBackupFilePath_ne bd op : Actions.createBackupFilePath bd op <> "".
Proof.
  intros H. apply (f_equal String.length) in H. unfold Actions.createBackupFilePath in H.
  rewrite !string_length_app in H. simpl in H. lia.
Qed.

Lemma backups_inv_congr st st' :
  Actions.cache st' = Actions.cache st ->
  map Actions.originalPath (Actions.records st') = map Actions.originalPath (Actions.records st) ->
  BackupInv.backups_inv st -> BackupInv.backups_inv st'.
Proof. unfold BackupInv.backups_inv. intros Hc Hr. rewrite Hc, Hr. tauto. Qed.

Lemma ensureBackup_inv bd op io st r st' :
  Actions.ensureBackup bd op io st = (r, st') ->
  BackupInv.backups_inv st -> BackupInv.backups_inv st'.
Proof.
  intros H [Hnd Hall].
  assert (Hcopy : forall st1 r1, Actions.ensureBackup_copy bd op io st = (r1, st1) ->
                  (forall p, Actions.cache st !! op = Some p -> p = "") ->
                  BackupInv.backups_inv st1).
  { intros st1 r1 Hc Hmiss. unfold Actions.ensureBackup_copy in Hc.
    destruct io as [e|]; [inversion Hc; subst; split; assumption|].
    destruct (Actions.files st !! op) as [b|]; [|inversion Hc; subst; split; assumption].
    inversion Hc; subst; clear Hc. unfold BackupInv.backups_inv; simpl.
    rewrite map_app. simpl.
    assert (Hnin : op ∉ map Actions.originalPath (Actions.records st)).
    { intros Hin. rewrite Forall_forall in Hall. destruct (Hall op Hin) as (p & Hp & Hne).
      apply Hne. apply Hmiss. exact Hp. }
    split.
    - apply NoDup_app. split; [exact Hnd|]. split; [|apply NoDup_singleton].
      intros x Hx Hy. apply list_elem_of_singleton in Hy. subst. contradiction.
    - apply Forall_app. split.
      + eapply Forall_impl; [exact Hall|]. intros o (p & Hp & Hne).
        destruct (decide (op = o)) as [->|Hneq].
        * exists (Actions.createBackupFilePath bd o). rewrite lookup_insert_eq.
          split; [reflexivity|apply createBackupFilePath_ne].
        * exists p. rewrite lookup_insert_ne by exact Hneq. split; assumption.
      + constructor; [|constructor]. exists (Actions.createBackupFilePath bd op).
        rewrite lookup_insert_eq. split; [reflexivity|apply createBackupFilePath_ne]. }
  unfold Actions.ensureBackup in H.
  destruct (Actions.cache st !! op) as [existing|] eqn:Hc.
  - destruct (String.eqb existing "") eqn:He.
    + eapply Hcopy; [exact H|]. intros p Hp. rewrite ?Hc in Hp. inversion Hp; subst.
      apply String.eqb_eq. exact He.
    + inversion H; subst. split; assumption.
  - eapply Hcopy; [exact H|]. intros p Hp. rewrite ?Hc in Hp. discriminate.
Qed.

Lemma writeValidatedAtomic_inv p buf io st r st' :
  Actions.writeValidatedAtomic p buf io st = (r, st') ->
  BackupInv.backups_inv st -> BackupInv.backups_inv st'.
Proof.
  unfold Actions.writeValidatedAtomic. destruct io; intros H; inversion H; subst; [tauto|].
  apply backups_inv_congr; reflexivity.
Qed.

Lemma backup_step_inv bd msg ip w st r st' :
  Actions.backup_step bd msg ip w st = (r, st') ->
  BackupInv.backups_inv st -> BackupInv.backups_inv st'.
Proof.
  unfold Actions.backup_step. intros H.
  destruct bd as [b|]; [|inversion H; subst; tauto].
  destruct (Actions.ensureBackup b ip (Actions.backupIO w) st) as [[x|e] st1] eqn:E;
    inversion H; subst; eapply ensureBackup_inv; exact E.
Qed.

Lemma finish_action_inv rt s ip ob ap before_write w st r st' :
  (forall st0 r0 st0', before_write st0 = (r0, st0') ->
     BackupInv.backups_inv st0 -> BackupInv.backups_inv st0') ->
  Actions.finish_action rt s ip ob ap before_write w st = (r, st') ->
  BackupInv.backups_inv st -> BackupInv.backups_inv st'.
Proof.
  intros Hbw H Hinv. unfold Actions.finish_action in H.
  destruct (shouldSkipIfLarger _ _ _); [inversion H; subst; exact Hinv|].
  destruct (rt _ _ _ _) as [p|e]; [|inversion H; subst; exact Hinv].
  destruct (before_write st) as [[u|e] st1] eqn:E1;
    [|inversion H; subst; eapply Hbw; eassumption].
  destruct (Actions.writeValidatedAtomic _ _ _ st1) as [[u'|e] st2] eqn:E2;
    inversion H; subst; eapply writeValidatedAtomic_inv; [exact E2| |exact E2|];
    eapply Hbw; eassumption.
Qed.

Lemma runOptimizeAction_inv opo dp rt ip buf s cr bd w st r st' :
  Actions.runOptimizeAction opo dp rt ip buf s cr bd w st = (r, st') ->
  BackupInv.backups_inv st -> BackupInv.backups_inv st'.
Proof.
  intros H Hinv. unfold Actions.runOptimizeAction in H.
  destruct (getOutputFormatForPath ip) as [type|]; [|inversion H; subst; exact Hinv].
  destruct (Actions.build_candidates s type w) as [cs|e]; [|inversion H; subst; exact Hinv].
  destruct (_ && _); [inversion H; subst; exact Hinv|].
  destruct (Pipeline.pickBest cs) as [best|]; [|inversion H; subst; exact Hinv].
  destruct (Actions.applyExportPreset _ _ _ _ _ _) as [applied|e]; [|inversion H; subst; exact Hinv].
  destruct (Actions.finish_action _ _ _ _ _ _ _ _) as [[[d p]|e] st2] eqn:E;
    inversion H; subst; (eapply finish_action_inv; [|exact E|exact Hinv]);
    intros st0 r0 st0' Hb; destruct (outputMode s);
    [eapply backup_step_inv; exact Hb|inversion Hb; subst; tauto
    |eapply backup_step_inv; exact Hb|inversion Hb; subst; tauto].
Qed.

Lemma mark_remove_on_restore_paths ip target rs :
  map Actions.originalPath (Actions.mark_remove_on_restore ip target rs) = map Actions.originalPath rs.
Proof.
  induction rs as [|r rs IH]; simpl; [reflexivity|].
  destruct (String.eqb (Actions.originalPath r) ip); simpl; [reflexivity|]. rewrite IH. reflexivity.
Qed.

Lemma runWebpAction_inv opw dp rt ip buf s cr bd w st r st' :
  Actions.runWebpAction opw dp rt ip buf s cr bd w st = (r, st') ->
  BackupInv.backups_inv st -> BackupInv.backups_inv st'.
Proof.
  intros H Hinv. unfold Actions.runWebpAction in H.
  destruct (getOutputFormatForPath ip) as [type|]; [|inversion H; subst; exact Hinv].
  destruct (_ && _); [inversion H; subst; exact Hinv|].
  destruct (Pipeline.buildWebpCandidates _ _ _) as [cs|e]; [|inversion H; subst; exact Hinv].
  destruct (Pipeline.pickBest cs) as [best|]; [|inversion H; subst; exact Hinv].
  set (dr := negb (Actions.is_subfolder (outputMode s)) && replaceWithWebp s
             && confirmDangerousWebpReplace s) in H.
  assert (Hst1 : forall rb st1,
            (if dr then Actions.backup_step bd "Backup directory required for dangerous replace mode" ip w st
             else (Ok tt, st)) = (rb, st1) -> BackupInv.backups_inv st1).
  { intros rb st1 E. destruct dr; [eapply backup_step_inv; eassumption|inversion E; subst; exact Hinv]. }
  destruct (if dr then _ else _) as [rb st1] eqn:E1. specialize (Hst1 _ _ eq_refl).
  destruct rb as [u|e]; [|inversion H; subst; exact Hst1].
  destruct (Actions.applyExportPreset _ _ _ _ _ _) as [applied|e]; [|inversion H; subst; exact Hst1].
  destruct (Actions.finish_action _ _ _ _ _ _ _ _) as [[[d p]|e] st2] eqn:E2.
  - assert (Hst2 : BackupInv.backups_inv st2).
    { eapply finish_action_inv; [|exact E2|exact Hst1].
      intros st0 r0 st0' Hb. inversion Hb; subst. tauto. }
    destruct (Actions.ad_status d); cbn iota beta in H; try (inversion H; subst; exact Hst2).
    destruct (dr && deleteOriginalAfterWebp s);
      [|inversion H; subst; exact Hst2].
    destruct (Actions.rmIO w); inversion H; subst;
      (eapply backups_inv_congr; [| |exact Hst2]); simpl;
      try reflexivity; apply mark_remove_on_restore_paths.
  - inversion H; subst. eapply finish_action_inv; [|exact E2|exact Hst1].
    intros st0 r0 st0' Hb. inversion Hb; subst. tauto.
Qed.

Lemma processFile_backups_inv opo opw dp rt ip s cr bd wOpt wWebp fs r fs' :
  Actions.processFile opo opw dp rt ip s cr bd wOpt wWebp fs = (Ok r, fs') ->
  NoDup (map Actions.originalPath (Actions.backups r)).
Proof.
  unfold Actions.processFile. intros H.
  destruct (fs !! ip) as [buf|]; [|discriminate].
  set (st0 := {| Actions.cache := ∅; Actions.records := []; Actions.files := fs |}) in H.
  assert (H0 : BackupInv.backups_inv st0) by (split; constructor).
  destruct (if shouldOptimizeOriginal (runMode s) then _ else _) as [r1 st1] eqn:E1.
  assert (H1 : BackupInv.backups_inv st1).
  { destruct (shouldOptimizeOriginal (runMode s)); [|inversion E1; subst; exact H0].
    destruct (Actions.runOptimizeAction opo dp rt ip buf s cr bd wOpt st0) as [[d|e] st'] eqn:E;
      inversion E1; subst; eapply runOptimizeAction_inv; eassumption. }
  destruct r1 as [opt|e]; [|discriminate].
  destruct (if shouldCreateWebp (runMode s) then _ else _) as [r2 st2] eqn:E2.
  assert (H2 : BackupInv.backups_inv st2).
  { destruct (shouldCreateWebp (runMode s)); [|inversion E2; subst; exact H1].
    destruct (Actions.runWebpAction opw dp rt ip buf s cr bd wWebp st1) as [[d|e] st'] eqn:E;
      inversion E2; subst; eapply runWebpAction_inv; eassumption. }
  destruct r2 as [wb|e]; [|discriminate].
  inversion H; subst. simpl. apply H2.
Qed.

(** C10: within one file job, the first [ensureBackup] of a path not
    yet cached copies the original to its backup path and appends
    exactly one record; every later call for that path, whatever its
    backup directory or I/O outcome, returns the cached backup path and
    leaves the state (files, cache, records) as it is; and the backup
    records [processFile] returns, across its optimise and WebP actions,
    hold at most one record per original path. *)
Theorem ensureBackup_once_per_path bd op (b : bytes) st :
  Actions.cache st !! op = None ->
  Actions.files st !! op = Some b ->
  let bp := Actions.createBackupFilePath bd op in
  let st1 := {| Actions.cache := <[op := bp]> (Actions.cache st);
                Actions.records := (Actions.records st ++
                  [ {| Actions.originalPath := op; Actions.backupPath := bp;
                       Actions.removeOnRestore := None |} ])%list;
                Actions.files := <[bp := b]> (Actions.files st) |} in
  Actions.ensureBackup bd op None st = (Ok bp, st1) /\
  (forall bd' io', Actions.ensureBackup bd' op io' st1 = (Ok bp, st1)) /\
  (forall opo opw dp rt inputPath s commonRoot backupDir wOpt wWebp fs r fs',
     Actions.processFile opo opw dp rt inputPath s commonRoot backupDir wOpt wWebp fs = (Ok r, fs') ->
     NoDup (map Actions.originalPath (Actions.backups r))).
Proof.
  intros Hc Hf bp st1. split; [|split].
  - unfold Actions.ensureBackup, Actions.ensureBackup_copy. rewrite Hc, Hf. reflexivity.
  - intros bd' io'. unfold Actions.ensureBackup. simpl. rewrite lookup_insert_eq.
    destruct (String.eqb bp "") eqn:E.
    + exfalso. apply String.eqb_eq in E. apply (createBackupFilePath_ne bd op). exact E.
    + reflexivity.
  - intros. eapply processFile_backups_inv. eassumption.
Qed.

Lemma ensureBackup_once_per_path_witness :
  Actions.cache Samples.st_input !! "in/a.jpg" = None /\
  Actions.files Samples.st_input !! "in/a.jpg" = Some [Byte.xff; Byte.xd8] /\
  Actions.ensureBackup "backups" "in/a.jpg" None Samples.st_input =
    (Ok "backups/in_a.jpg-a.jpg",
     {| Actions.cache := <[ "in/a.jpg" := "backups/in_a.jpg-a.jpg" ]> ∅;
        Actions.records := [ {| Actions.originalPath := "in/a.jpg";
                                Actions.backupPath := "backups/in_a.jpg-a.jpg";
                                Actions.removeOnRestore := None |} ];
        Actions.files := <[ "backups/in_a.jpg-a.jpg" := [Byte.xff; Byte.xd8] ]>
                           {[ "in/a.jpg" := [Byte.xff; Byte.xd8] ]} |}).
Proof.
  assert (Hc : Actions.cache Samples.st_input !! "in/a.jpg" = None) by reflexivity.
  assert (Hf : Actions.files Samples.st_input !! "in/a.jpg" = Some [Byte.xff; Byte.xd8])
    by (vm_compute; reflexivity).
  split; [exact Hc|]. split; [exact Hf|].
  destruct (ensureBackup_once_per_path "backups" "in/a.jpg" _ Samples.st_input Hc Hf) as [H _].
  exact H.
Defined.

(** * Further properties *)

Section JobAndWatchProperties.
Import Jobs JobCalls.

Lemma emitEvent_agrees j :
  status j <> queued -> events_agree (emitEvent j).
Proof.
  intros Hq. unfold events_agree, emitEvent; simpl. split.
  - split; [intros Hn; apply app_eq_nil in Hn; destruct Hn as [_ Hn]; discriminate | intros; contradiction].
  - intros ev Hl. rewrite last_snoc in Hl. inversion Hl; subst. simpl. auto.
Qed.

Lemma emitEvent_result j : result_agrees (emitEvent j) <-> result_agrees j.
Proof. unfold result_agrees, emitEvent; simpl. reflexivity. Qed.

Lemma call_inv m j j' :
  result_agrees j -> events_agree j -> call m j = Ok j' -> result_agrees j' /\ events_agree j'.
Proof.
  intros Hr He Hc.
  destruct j as [st pr res em].
  destruct m; simpl in Hc; unfold start, updateProgress, succeed, fail, cancel, skip in Hc;
    destruct st; simpl in Hc; inversion Hc; subst; clear Hc;
    try (split; [exact Hr | exact He]);
    (split; [apply emitEvent_result; unfold result_agrees in *; simpl in *; eauto
            | apply emitEvent_agrees; simpl; discriminate]).
Qed.

Lemma run_calls_inv ms j :
  result_agrees j -> events_agree j ->
  result_agrees (run_calls ms j) /\ events_agree (run_calls ms j).
Proof.
  revert j; induction ms as [|m ms IH]; intros j Hr He; simpl; [auto|].
  apply IH; destruct (call m j) as [j'|e] eqn:Hc; try (exact Hr); try (exact He);
    eapply call_inv; eauto.
Qed.

(** X1: After any sequence of calls on a new job, the job carries a result exactly when it is finished (success, failed or skipped), and that result has the job's status. *)
Theorem job_result_matches_status ms :
  let j := run_calls ms new_job in
  match status j with
  | success | failed | skipped => exists b, result j = Some {| res_status := status j; res_body := b |}
  | queued | running | cancelled => result j = None
  end.
Proof.
  intros j. destruct (run_calls_inv ms new_job) as [Hr _].
  - reflexivity.
  - split; [split; reflexivity | intros ev Hl; discriminate].
  - unfold result_agrees in Hr. subst j. destruct (status _); exact Hr.
Qed.

(** X2: After any sequence of calls on a new job, no event was emitted exactly when it is still queued, and the last emitted event carries the job's current status and result. *)
Theorem job_last_event_reports_state ms :
  let j := run_calls ms new_job in
  (emitted j = [] <-> status j = queued) /\
  (forall ev, last (emitted j) = Some ev -> ev_status ev = status j /\ ev_result ev = result j).
Proof.
  intros j. destruct (run_calls_inv ms new_job) as [_ He].
  - reflexivity.
  - split; [split; reflexivity | intros ev Hl; discriminate].
  - exact He.
Qed.

Lemma call_finished m j :
  status j = success \/ status j = failed \/ status j = skipped ->
  match call m j with Ok j' => j' | Throw _ => j end = j.
Proof.
  destruct j as [st pr res em]; simpl.
  intros H; destruct m; simpl; unfold start, updateProgress, succeed, fail, cancel, skip;
    destruct H as [H|[H|H]]; subst st; reflexivity.
Qed.

(** X3: A job that succeeded, failed or was skipped is left unchanged by any further calls. *)
Theorem job_finished_is_frozen j ms :
  status j = success \/ status j = failed \/ status j = skipped -> run_calls ms j = j.
Proof.
  intros H. induction ms as [|m ms IH]; simpl; [reflexivity|].
  rewrite (call_finished m j H). exact IH.
Qed.

Lemma job_finished_is_frozen_witness :
  let j := run_calls [MStart; MSucceed body0] new_job in
  status j = success /\ run_calls [MCancel; MFail body0; MStart; MSkip "again" 100] j = j.
Proof.
  intros j. split; [reflexivity|].
  apply job_finished_is_frozen. left. reflexivity.
Defined.

Lemma call_cancelled m j :
  status j = cancelled ->
  let j' := match call m j with Ok j' => j' | Throw _ => j end in
  status j' = cancelled /\ result j' = result j /\ progress j' = progress j.
Proof.
  destruct j as [st pr res em]; simpl. intros H; subst st.
  destruct m; simpl; auto.
Qed.

(** X4: A cancelled job stays cancelled under any further calls, and its result and progress do not change. *)
Theorem job_cancelled_stays_cancelled j ms :
  status j = cancelled ->
  status (run_calls ms j) = cancelled /\ result (run_calls ms j) = result j /\
  progress (run_calls ms j) = progress j.
Proof.
  revert j; induction ms as [|m ms IH]; intros j H; simpl; [auto|].
  destruct (call_cancelled m j H) as [H1 [H2 H3]].
  destruct (IH _ H1) as [E1 [E2 E3]].
  rewrite E2, E3, H2, H3. auto.
Qed.

Lemma job_cancelled_stays_cancelled_witness :
  let j := run_calls [MStart; MCancel] new_job in
  status j = cancelled /\
  status (run_calls [MSucceed body0; MFail body0; MSkip "late" 100; MStart] j) = cancelled.
Proof.
  intros j. split; [reflexivity|].
  apply (job_cancelled_stays_cancelled j). reflexivity.
Defined.

Lemma string_app_suffix_eq (s1 s2 a b : string) :
  String.length a = String.length b -> (s1 ++ a = s2 ++ b)%string -> a = b.
Proof.
  intros Hl H.
  assert (Hs : String.length s1 = String.length s2).
  { apply (f_equal String.length) in H. rewrite !string_length_app in H. lia. }
  revert s2 Hs H; induction s1 as [|c s1 IH]; intros [|d s2] Hs H; simpl in *.
  - exact H.
  - discriminate.
  - discriminate.
  - injection H as -> H. apply (IH s2); [lia | exact H].
Qed.

Lemma string_app_assoc (a b c : string) : ((a ++ b) ++ c)%string = (a ++ b ++ c)%string.
Proof.
  induction a as [|x a IH]; [reflexivity|].
  change (String x ((a ++ b) ++ c) = String x (a ++ b ++ c))%string. rewrite IH. reflexivity.
Qed.

Lemma backupPathFor_ne_tmp bd target target' stamp rand :
  AtomicWrite.backupPathFor bd target <> AtomicWrite.tmpPathFor target' stamp rand.
Proof.
  unfold AtomicWrite.backupPathFor, AtomicWrite.tmpPathFor. intros H.
  rewrite <- !string_app_assoc in H.
  apply string_app_suffix_eq in H; [discriminate | reflexivity].
Qed.

(** X5: A successful atomic write leaves the new buffer at the target, no temporary file, the previous target contents at the reported backup path, and every other path untouched. *)
Theorem atomicWrite_success_installs_buffer target buffer options stamp rand w fs r fs' :
  AtomicWrite.atomicWrite target buffer options stamp rand w fs = (r, fs') ->
  AtomicWrite.success r = true ->
  let tmp := AtomicWrite.tmpPathFor target stamp rand in
  fs' !! target = Some buffer /\ fs' !! tmp = None /\
  (forall bp, AtomicWrite.backupPath r = Some bp -> fs' !! bp = fs !! target /\ fs !! target <> None) /\
  (forall p, p <> target -> p <> tmp ->
     (forall bp, AtomicWrite.backupPath r = Some bp -> p <> bp) -> fs' !! p = fs !! p).
Proof.
  intros H Hs tmp. unfold AtomicWrite.atomicWrite in H. fold tmp in H.
  pose proof (tmpPathFor_ne target stamp rand) as Htt. fold tmp in Htt.
  destruct (AtomicWrite.try_block target tmp buffer options w fs) as [[bp|e] fs1] eqn:Ht;
    inversion H; subst; clear H; [|discriminate]. simpl.
  unfold AtomicWrite.try_block in Ht.
  pose proof (fun bd => backupPathFor_ne bd target) as Hbt.
  pose proof (fun bd => backupPathFor_ne_tmp bd target target stamp rand) as Hbm. fold tmp in Hbm.
  repeat (case_match; simplify_eq/=);
    ((split; [simplify_map_eq; done | split; [simplify_map_eq; done | split]]);
     [ intros bp Hbp; simplify_eq; simplify_map_eq; rewrite ?H5; split; congruence
     | intros p Hp1 Hp2 Hp3; try specialize (Hp3 _ eq_refl); simplify_map_eq; done ]).
Qed.

(** X6: When validation is not skipped, a successful atomic write wrote a non-empty buffer whose stat succeeded and whose decoded format is the expected one. *)
Theorem atomicWrite_success_validated target buffer options stamp rand w fs r fs' :
  AtomicWrite.atomicWrite target buffer options stamp rand w fs = (r, fs') ->
  AtomicWrite.success r = true ->
  AtomicWrite.skipValidation options = false ->
  length buffer <> 0%nat /\ AtomicWrite.statIO w = None /\
  (forall f, AtomicWrite.expectedFormat options = Some f -> AtomicWrite.sharpFormat w buffer = Ok (Some f)).
Proof.
  intros H Hs Hv. unfold AtomicWrite.atomicWrite in H.
  destruct (AtomicWrite.try_block target _ buffer options w fs) as [[bp|e] fs1] eqn:Ht;
    inversion H; subst; clear H; [|discriminate].
  unfold AtomicWrite.try_block in Ht. rewrite Hv in Ht.
  repeat (case_match; simplify_eq/=);
    (split; [apply Nat.eqb_neq; assumption | split; [reflexivity|]]);
    intros f' Hf'; simplify_eq; try reflexivity;
    match goal with H : Candidates.format_eqb ?g ?f = true |- _ =>
      destruct g, f; simpl in H; congruence end.
Qed.

Lemma atomicWrite_success_installs_buffer_witness :
  AtomicWrite.success (fst ok_write) = true /\
  snd ok_write !! "out/a.jpg" = Some [Byte.x01; Byte.x02; Byte.x03] /\
  snd ok_write !! AtomicWrite.tmpPathFor "out/a.jpg" "1700000000000" "9f3a" = None.
Proof.
  split; [vm_compute; reflexivity|].
  destruct (atomicWrite_success_installs_buffer "out/a.jpg" [Byte.x01; Byte.x02; Byte.x03]
              backup_options "1700000000000" "9f3a" fs_ok {[ "out/a.jpg" := [Byte.x07] ]}
              (fst ok_write) (snd ok_write)) as [H1 [H2 _]].
  - vm_compute; reflexivity.
  - vm_compute; reflexivity.
  - split; [exact H1 | exact H2].
Defined.

Lemma atomicWrite_success_validated_witness :
  AtomicWrite.success (fst ok_write) = true /\
  AtomicWrite.sharpFormat fs_ok [Byte.x01; Byte.x02; Byte.x03] = Ok (Some Candidates.jpeg).
Proof.
  split; [vm_compute; reflexivity|].
  destruct (atomicWrite_success_validated "out/a.jpg" [Byte.x01; Byte.x02; Byte.x03]
              backup_options "1700000000000" "9f3a" fs_ok {[ "out/a.jpg" := [Byte.x07] ]}
              (fst ok_write) (snd ok_write)) as [_ [_ H]].
  - vm_compute; reflexivity.
  - vm_compute; reflexivity.
  - reflexivity.
  - apply H. reflexivity.
Defined.

(** X7: The watcher's processed check holds exactly when the index maps the path to that very fingerprint. *)
Theorem processed_index_lookup_exact idx p fp :
  Watch.hasBeenProcessed idx p fp = true <-> idx !! p = Some fp.
Proof.
  unfold Watch.hasBeenProcessed. destruct (idx !! p) as [[s m h]|]; [|split; discriminate].
  destruct fp as [s' m' h']; simpl.
  rewrite !andb_true_iff, !Z.eqb_eq, String.eqb_eq. split.
  - intros [[-> ->] ->]. reflexivity.
  - intros H; inversion H; subst; auto.
Qed.

(** X8: Marking a path processed makes the check hold for it and leaves other paths alone; removing a path makes the check fail for it and leaves other paths alone. *)
Theorem processed_index_mark_remove idx p q fp fp' :
  Watch.hasBeenProcessed (Watch.markProcessed idx p fp) p fp = true /\
  (q <> p -> Watch.hasBeenProcessed (Watch.markProcessed idx p fp) q fp' = Watch.hasBeenProcessed idx q fp') /\
  Watch.hasBeenProcessed (WatchIndex.remove idx p) p fp' = false /\
  (q <> p -> Watch.hasBeenProcessed (WatchIndex.remove idx p) q fp' = Watch.hasBeenProcessed idx q fp').
Proof.
  unfold Watch.markProcessed, WatchIndex.remove, Watch.hasBeenProcessed.
  split; [|split; [|split]].
  - rewrite lookup_insert_eq, !Z.eqb_refl, String.eqb_refl. reflexivity.
  - intros Hq. rewrite lookup_insert_ne by congruence. reflexivity.
  - destruct (idx !! p) eqn:E; [rewrite lookup_delete_eq; reflexivity | rewrite E; reflexivity].
  - intros Hq. destruct (idx !! p); [rewrite lookup_delete_ne by congruence|]; reflexivity.
Qed.

(** X9: The fast hash reads at most two samples of SAMPLE_SIZE bytes, and the whole content when it is at most twice that size. *)
Theorem fastHash_reads_at_most_two_samples content :
  let data := WatchIndex.hashed_bytes (Watch.fastHashInput content) in
  (length data <= 2 * Watch.SAMPLE_SIZE)%nat /\
  ((length content <= 2 * Watch.SAMPLE_SIZE)%nat -> data = content).
Proof.
  intros data. subst data. unfold Watch.fastHashInput, WatchIndex.hashed_bytes.
  destruct (length content <=? Watch.SAMPLE_SIZE * 2)%nat eqn:E; cbn -[Watch.SAMPLE_SIZE].
  - apply Nat.leb_le in E. rewrite !app_nil_r. split; [lia | reflexivity].
  - apply Nat.leb_gt in E. rewrite app_nil_r. split; [|lia].
    rewrite length_app, length_firstn, length_skipn. lia.
Qed.

(** X10: Two files of the same size, larger than two samples, with equal first and last SAMPLE_SIZE bytes get the same fast hash whatever their middle. *)
Theorem fastHash_ignores_middle sha c1 c2 :
  length c1 = length c2 ->
  (2 * Watch.SAMPLE_SIZE < length c1)%nat ->
  firstn Watch.SAMPLE_SIZE c1 = firstn Watch.SAMPLE_SIZE c2 ->
  skipn (length c1 - Watch.SAMPLE_SIZE) c1 = skipn (length c2 - Watch.SAMPLE_SIZE) c2 ->
  Watch.computeFastHash sha c1 = Watch.computeFastHash sha c2.
Proof.
  intros Hl Hbig Hf Hs. unfold Watch.computeFastHash, Watch.fastHashInput.
  rewrite <- Hl in Hs |- *. destruct (length c1 <=? Watch.SAMPLE_SIZE * 2)%nat eqn:E.
  - apply Nat.leb_le in E. lia.
  - rewrite Hf, Hs. reflexivity.
Qed.

Lemma bytes_eqb_eq a b : bytes_eqb a b = true -> a = b.
Proof.
  revert b; induction a as [|x a IH]; intros [|y b]; simpl; try discriminate; [reflexivity|].
  intros H. apply andb_true_iff in H as [H1 H2].
  apply Byte.byte_dec_bl in H1. subst. f_equal. apply IH, H2.
Qed.

Lemma fastHash_ignores_middle_witness :
  flat_content <> edited_content /\
  Watch.computeFastHash byte_sum flat_content = Watch.computeFastHash byte_sum edited_content.
Proof.
  split.
  - intros H. apply (f_equal (fun l => Byte.eqb (nth (2 ^ 20) l Byte.x00) Byte.x00)) in H.
    vm_compute in H. discriminate.
  - apply fastHash_ignores_middle.
    + apply Nat.eqb_eq. vm_compute. reflexivity.
    + apply Nat.ltb_lt. vm_compute. reflexivity.
    + apply bytes_eqb_eq. vm_compute. reflexivity.
    + apply bytes_eqb_eq. vm_compute. reflexivity.
Defined.

(** X11: When the worker pool reports a failure for a stable, unprocessed file within the size limit, the index is unchanged, the file is requeued with a higher retry count while it has been retried fewer than two times, and a failed event with the worker's message is emitted otherwise. *)
Theorem watch_pipeline_failure_retried_twice sha item settings w st content mtime p msg :
  Watch.isStable w = true ->
  Watch.file w = Some (content, mtime) ->
  ((0 <? Watch.maxFileSizeMb settings) &&
   (Watch.maxFileSizeMb settings * 1024 * 1024 <? Z.of_nat (length content)))%Z = false ->
  Watch.hasBeenProcessed (Watch.index st) (Watch.filePath item) (Watch.getFingerprint sha content mtime) = false ->
  Watch.poolResponse w = Run.RespFailed p msg ->
  let st' := Watch.processFileWithLifecycle sha item settings w st in
  Watch.index st' = Watch.index st /\
  Watch.pipelineRuns st' = S (Watch.pipelineRuns st) /\
  ((Watch.retryCount item < 2)%nat ->
     Watch.events st' = Watch.events st /\
     Watch.requeued st' = (Watch.requeued st ++
       [ {| Watch.q_folder := Watch.q_folder item; Watch.filePath := Watch.filePath item;
            Watch.retryCount := S (Watch.retryCount item) |} ])%list) /\
  ((2 <= Watch.retryCount item)%nat ->
     Watch.requeued st' = Watch.requeued st /\
     Watch.events st' = (Watch.events st ++
       [ {| Watch.folder := Watch.q_folder item; Watch.e_path := Watch.filePath item;
            Watch.e_status := Watch.w_failed; Watch.before := 0; Watch.after := 0;
            Watch.saved := 0; Watch.e_message := Some msg |} ])%list).
Proof.
  intros Hst Hf Hcap Hidx Hresp st'. subst st'.
  unfold Watch.processFileWithLifecycle.
  destruct (Watch.retryCount item <? 2)%nat eqn:E;
    rewrite Hst, Hf; cbn -[Watch.hasBeenProcessed Z.mul];
    rewrite Hcap, Hidx; unfold Watch.runOptimization; rewrite Hresp.
  - apply Nat.ltb_lt in E. simpl. split; [reflexivity|]. split; [reflexivity|].
    split; [intros _; split; reflexivity | intros; lia].
  - apply Nat.ltb_ge in E. simpl. split; [reflexivity|]. split; [reflexivity|].
    split; [intros; lia | intros _; split; reflexivity].
Qed.

Lemma watch_pipeline_failure_retried_twice_witness :
  map Watch.e_message (Watch.events (Watch.processFileWithLifecycle Samples.sha_const third_attempt
     Samples.nocap_settings failing_world Samples.small_state)) = [Some "cjpeg exited with code 1"].
Proof.
  destruct (watch_pipeline_failure_retried_twice Samples.sha_const third_attempt Samples.nocap_settings
              failing_world Samples.small_state Samples.small_content 5%Z "in/icon.png" "cjpeg exited with code 1")
    as [_ [_ [_ H]]]; [reflexivity .. |].
  destruct (H ltac:(simpl; lia)) as [_ He]. rewrite He. reflexivity.
Defined.

End JobAndWatchProperties.

(** X12: The effective JPEG and WebP qualities are within 1..100, equal a finite requested value in range, and fall back to 82 and 80 when the requested value is not finite. *)
Theorem toEffectiveSettings_quality_bounds settings rm :
  let e := Settings.toEffectiveSettings settings rm in
  (1 <= jpegQuality e <= 100)%Z /\ (1 <= webpQuality e <= 100)%Z /\
  (forall q, Settings.o_jpegQuality settings = Settings.Finite q -> (1 <= q <= 100)%Z -> jpegQuality e = q) /\
  (forall q, Settings.o_webpQuality settings = Settings.Finite q -> (1 <= q <= 100)%Z -> webpQuality e = q) /\
  ((forall q, Settings.o_jpegQuality settings <> Settings.Finite q) -> jpegQuality e = 82%Z) /\
  ((forall q, Settings.o_webpQuality settings <> Settings.Finite q) -> webpQuality e = 80%Z).
Proof.
  simpl. destruct (Settings.o_jpegQuality settings) as [j| | |];
    destruct (Settings.o_webpQuality settings) as [v| | |];
    repeat split; intros; simplify_eq; try lia;
    try (exfalso; eapply H; reflexivity).
Qed.

(** X13: The effective WebP effort is a number within 4..6, is 5 when the requested effort is 0 or NaN, and equals a requested effort within 4..6. *)
Theorem effectiveWebpEffort_bounds settings :
  exists e, Settings.effectiveWebpEffort settings = Settings.Finite e /\ (4 <= e <= 6)%Z /\
  (Settings.o_webpEffort settings = Settings.Finite 0 \/ Settings.o_webpEffort settings = Settings.NaN -> e = 5%Z) /\
  (forall q, Settings.o_webpEffort settings = Settings.Finite q -> (4 <= q <= 6)%Z -> e = q).
Proof.
  unfold Settings.effectiveWebpEffort.
  destruct (Settings.o_webpEffort settings) as [[|p|p]| | |]; simpl;
    (eexists; split; [reflexivity|]; split; [lia|]; split;
     [intros [H|H]; simplify_eq; reflexivity | intros q Hq Hr; simplify_eq; lia]).
Qed.

Lemma prefix_replace_char c d needle s :
  no_char c needle = true -> String.prefix needle s = true ->
  String.prefix needle (Actions.replace_char c d s) = true.
Proof.
  revert s; induction needle as [|x needle IH]; intros s Hn Hp; [destruct (Actions.replace_char c d s); reflexivity|].
  destruct s as [|y s]; [discriminate|]. simpl in *.
  apply andb_true_iff in Hn as [Hx Hn].
  destruct (ascii_dec x y) as [<-|Hne]; [|discriminate].
  apply negb_true_iff, Ascii.eqb_neq in Hx.
  destruct (Ascii.eqb x c) eqn:E; [apply Ascii.eqb_eq in E; contradiction|].
  destruct (ascii_dec x x) as [_|]; [|contradiction]. apply IH; assumption.
Qed.

Lemma includes_replace_char c d needle s :
  no_char c needle = true -> includes needle s = true ->
  includes needle (Actions.replace_char c d s) = true.
Proof.
  intros Hn. induction s as [|y s IH]; intros Hi.
  - simpl in *. exact Hi.
  - cbn [includes Actions.replace_char] in Hi |- *.
    destruct (String.prefix needle (String y s)) eqn:Hp.
    + pose proof (prefix_replace_char c d needle _ Hn Hp) as Hq.
      cbn [Actions.replace_char] in Hq. rewrite Hq. reflexivity.
    + destruct (String.prefix needle
                  (String (if Ascii.eqb y c then d else y) (Actions.replace_char c d s)));
        [reflexivity|].
      apply IH, Hi.
Qed.

(** X14: The watcher ignores every path inside an Optimized, .optimise-tmp or .optimise-backup folder and every path ending, in any case, in .tmp, .crdownload or .download. *)
Theorem shouldIgnorePath_generated_paths p :
  (includes "/Optimized/" p = true \/ includes "/.optimise-tmp/" p = true \/
   includes "/.optimise-backup/" p = true \/
   ends_with ".tmp" (to_lower p) = true \/ ends_with ".crdownload" (to_lower p) = true \/
   ends_with ".download" (to_lower p) = true) ->
  WatchFilter.shouldIgnorePath p = true.
Proof.
  unfold WatchFilter.shouldIgnorePath, WatchFilter.isTempFile. simpl.
  intros [H|[H|[H|[H|[H|H]]]]];
    try (apply (includes_replace_char "\"%char "/"%char) in H; [|reflexivity]);
    rewrite ?H, ?orb_true_r; simpl;
    repeat match goal with |- context [if ?b then _ else _] => destruct b end; auto.
Qed.

Lemma createBackupFilePath_ne_orig bd op : Actions.createBackupFilePath bd op <> op.
Proof.
  intros H. apply (f_equal String.length) in H. unfold Actions.createBackupFilePath in H.
  rewrite !string_length_app, !replace_char_length in H. simpl in H. lia.
Qed.

(** X15: Two different originals whose backup file names coincide share one backup path, and backing up the second in a later job overwrites the first one's backup. *)
Theorem backup_path_collision_overwrites bd op1 op2 b1 b2 fs :
  Actions.createBackupFilePath bd op1 = Actions.createBackupFilePath bd op2 ->
  fs !! op1 = Some b1 -> fs !! op2 = Some b2 ->
  let bp := Actions.createBackupFilePath bd op1 in
  let j1 := Actions.ensureBackup bd op1 None (fresh_job fs) in
  let j2 := Actions.ensureBackup bd op2 None (fresh_job (Actions.files (snd j1))) in
  fst j1 = Ok bp /\
  Actions.records (snd j1) = [ {| Actions.originalPath := op1; Actions.backupPath := bp;
                                  Actions.removeOnRestore := None |} ] /\
  fst j2 = Ok bp /\
  Actions.files (snd j2) !! bp = Some b2.
Proof.
  intros Hc H1 H2 bp j1 j2. subst j1 j2 bp.
  unfold Actions.ensureBackup, fresh_job. simpl. rewrite lookup_empty.
  unfold Actions.ensureBackup_copy. simpl. rewrite H1. simpl.
  rewrite lookup_empty. simpl.
  rewrite lookup_insert_ne by (rewrite Hc; apply createBackupFilePath_ne_orig).
  rewrite H2. simpl. rewrite <- Hc, lookup_insert_eq. auto.
Qed.

Lemma backup_path_collision_overwrites_witness :
  "/p/a_b/c.jpg" <> "/p/a/b/c.jpg" /\
  let fs := {[ "/p/a_b/c.jpg" := [Byte.x01]; "/p/a/b/c.jpg" := [Byte.x02] ]} in
  let j1 := Actions.ensureBackup "bk" "/p/a_b/c.jpg" None (fresh_job fs) in
  let j2 := Actions.ensureBackup "bk" "/p/a/b/c.jpg" None (fresh_job (Actions.files (snd j1))) in
  Actions.files (snd j2) !! Actions.createBackupFilePath "bk" "/p/a_b/c.jpg" = Some [Byte.x02].
Proof.
  split; [discriminate|]. intros fs j1 j2.
  apply (backup_path_collision_overwrites "bk" "/p/a_b/c.jpg" "/p/a/b/c.jpg" [Byte.x01] [Byte.x02] fs);
    vm_compute; reflexivity.
Defined.

Lemma encodeAndMeasure_quality measure i q c :
  Smart.encodeAndMeasure measure i q = Some c -> Smart.quality c = q.
Proof. unfold Smart.encodeAndMeasure. destruct (measure i q) as [[m b]|]; intros H; inversion H; reflexivity. Qed.

Lemma search_loop_lowest measure thr :
  forall fuel i mn mx best, (mn <= mx)%Z ->
  let res := Smart.search_loop measure thr fuel i mn mx best in
  Forall (fun q => (mn <= q <= mx)%Z) (snd res) /\
  match fst res with
  | None => best = None /\ (forall k q, nth_error (snd res) k = Some q -> passes_at measure thr (i + k) q = false)
  | Some r =>
      (best = Some r /\ (forall k q, nth_error (snd res) k = Some q -> passes_at measure thr (i + k) q = false))
      \/ ((exists k, nth_error (snd res) k = Some (Smart.quality r) /\
                     Smart.encodeAndMeasure measure (i + k) (Smart.quality r) = Some r /\
                     Smart.passes thr r = true) /\
          (forall k q, nth_error (snd res) k = Some q -> passes_at measure thr (i + k) q = true ->
                       (Smart.quality r <= q)%Z))
  end.
Proof.
  induction fuel as [|fuel IH]; intros i mn mx best Hle; simpl.
  - split; [constructor|]. destruct best as [r|].
    + left. split; [reflexivity|]. intros [|k] q H; discriminate.
    + split; [reflexivity|]. intros [|k] q H; discriminate.
  - set (q := ((mn + mx) / 2)%Z).
    assert (Hq : (mn <= q <= mx)%Z) by (unfold q; split; [apply Z.div_le_lower_bound|apply Z.div_le_upper_bound]; lia).
    destruct (Smart.encodeAndMeasure measure i q) as [c|] eqn:Hm;
      [destruct (Smart.passes thr c) eqn:Hp|].
    + (* the encode passes: new best [c], upper bound [q - 1] *)
      assert (Hpq : passes_at measure thr i q = true) by (unfold passes_at; rewrite Hm; exact Hp).
      assert (Hcq : Smart.quality c = q) by (eapply encodeAndMeasure_quality; eauto).
      destruct (q - 1 <? mn)%Z eqn:Hc.
      * simpl. split; [constructor; [lia|constructor]|]. right. split.
        -- exists 0%nat. rewrite Nat.add_0_r, Hcq. auto.
        -- intros [|k] q' H; simpl in H; [|destruct k; discriminate]. inversion H; subst. lia.
      * apply Z.ltb_ge in Hc.
        destruct (IH (S i) mn (q - 1)%Z (Some c) ltac:(lia)) as [Hr Hres].
        destruct (Smart.search_loop measure thr fuel (S i) mn (q - 1)%Z (Some c)) as [res qs]; simpl in *.
        split; [constructor; [lia|eapply Forall_impl; [exact Hr|]; simpl; intros; lia]|].
        destruct res as [r|]; [|destruct Hres; discriminate].
        right. destruct Hres as [[Hb Hno]|[[k [Hk [Hmk Hpk]]] Hlow]].
        -- inversion Hb; subst r. split.
           ++ exists 0%nat. rewrite Nat.add_0_r, Hcq. auto.
           ++ intros [|k] q' H Hpass; simpl in H; [inversion H; subst; lia|].
              rewrite Nat.add_succ_r, (Hno k q' H) in Hpass. discriminate.
        -- split.
           ++ exists (S k). simpl nth_error. replace (i + S k)%nat with (S i + k)%nat by lia. auto.
           ++ intros [|k'] q' H Hpass; simpl in H.
              ** inversion H; subst q'.
                 apply nth_error_In in Hk. rewrite List.Forall_forall in Hr. specialize (Hr _ Hk). lia.
              ** apply (Hlow k'); [exact H|]. rewrite Nat.add_succ_r in Hpass. exact Hpass.
    + (* the encode fails the target *)
      assert (Hpq : passes_at measure thr i q = false) by (unfold passes_at; rewrite Hm; exact Hp).
      destruct (mx <? q + 1)%Z eqn:Hc.
      * simpl. split; [constructor; [lia|constructor]|].
        assert (Hno : forall k q', nth_error [q] k = Some q' -> passes_at measure thr (i + k) q' = false)
          by (intros [|k] q' H; simpl in H; [inversion H; subst; rewrite Nat.add_0_r; exact Hpq|destruct k; discriminate]).
        destruct best as [r|]; [left|]; auto.
      * apply Z.ltb_ge in Hc.
        destruct (IH (S i) (q + 1)%Z mx best ltac:(lia)) as [Hr Hres].
        destruct (Smart.search_loop measure thr fuel (S i) (q + 1)%Z mx best) as [res qs]; simpl in *.
        split; [constructor; [lia|eapply Forall_impl; [exact Hr|]; simpl; intros; lia]|].
        assert (Hshift : forall P : bool -> Prop, P false ->
                  (forall k q', nth_error qs k = Some q' -> P (passes_at measure thr (S i + k) q')) ->
                  forall k q', nth_error (q :: qs) k = Some q' -> P (passes_at measure thr (i + k) q')).
        { intros P H0 HS [|k] q' H; simpl in H; [inversion H; subst; rewrite Nat.add_0_r, Hpq; exact H0|].
          replace (i + S k)%nat with (S i + k)%nat by lia. apply HS, H. }
        destruct res as [r|].
        -- destruct Hres as [[Hb Hno]|[[k [Hk [Hmk Hpk]]] Hlow]].
           ++ left. split; [exact Hb|]. apply (Hshift (fun b => b = false)); [reflexivity|exact Hno].
           ++ right. split.
              ** exists (S k). simpl nth_error. replace (i + S k)%nat with (S i + k)%nat by lia. auto.
              ** intros k' q' H Hpass.
                 destruct k' as [|k']; simpl in H.
                 { inversion H; subst. rewrite Nat.add_0_r, Hpq in Hpass. discriminate. }
                 { apply (Hlow k'); [exact H|]. rewrite Nat.add_succ_r in Hpass. exact Hpass. }
        -- destruct Hres as [Hb Hno]. split; [exact Hb|].
           apply (Hshift (fun b => b = false)); [reflexivity|exact Hno].
    + (* the encode throws *)
      assert (Hpq : passes_at measure thr i q = false) by (unfold passes_at; rewrite Hm; reflexivity).
      destruct (mx <? q + 1)%Z eqn:Hc.
      * simpl. split; [constructor; [lia|constructor]|].
        assert (Hno : forall k q', nth_error [q] k = Some q' -> passes_at measure thr (i + k) q' = false)
          by (intros [|k] q' H; simpl in H; [inversion H; subst; rewrite Nat.add_0_r; exact Hpq|destruct k; discriminate]).
        destruct best as [r|]; [left|]; auto.
      * apply Z.ltb_ge in Hc.
        destruct (IH (S i) (q + 1)%Z mx best ltac:(lia)) as [Hr Hres].
        destruct (Smart.search_loop measure thr fuel (S i) (q + 1)%Z mx best) as [res qs]; simpl in *.
        split; [constructor; [lia|eapply Forall_impl; [exact Hr|]; simpl; intros; lia]|].
        assert (Hshift : forall P : bool -> Prop, P false ->
                  (forall k q', nth_error qs k = Some q' -> P (passes_at measure thr (S i + k) q')) ->
                  forall k q', nth_error (q :: qs) k = Some q' -> P (passes_at measure thr (i + k) q')).
        { intros P H0 HS [|k] q' H; simpl in H; [inversion H; subst; rewrite Nat.add_0_r, Hpq; exact H0|].
          replace (i + S k)%nat with (S i + k)%nat by lia. apply HS, H. }
        destruct res as [r|].
        -- destruct Hres as [[Hb Hno]|[[k [Hk [Hmk Hpk]]] Hlow]].
           ++ left. split; [exact Hb|]. apply (Hshift (fun b => b = false)); [reflexivity|exact Hno].
           ++ right. split.
              ** exists (S k). simpl nth_error. replace (i + S k)%nat with (S i + k)%nat by lia. auto.
              ** intros k' q' H Hpass.
                 destruct k' as [|k']; simpl in H.
                 { inversion H; subst. rewrite Nat.add_0_r, Hpq in Hpass. discriminate. }
                 { apply (Hlow k'); [exact H|]. rewrite Nat.add_succ_r in Hpass. exact Hpass. }
        -- destruct Hres as [Hb Hno]. split; [exact Hb|].
           apply (Hshift (fun b => b = false)); [reflexivity|exact Hno].
Qed.

(** X16: The smart search returns a passing candidate encoded at one of the qualities it tried, no tried quality below it passes, and it returns nothing only when no tried quality passed. *)
Theorem findOptimalQuality_lowest_passing measure isPhoto s format :
  let thr := Smart.targetThreshold s in
  let '(res, qs) := Smart.findOptimalQuality_traced measure isPhoto s format in
  match res with
  | None => forall k q, nth_error qs k = Some q -> passes_at measure thr k q = false
  | Some r =>
      (exists k, nth_error qs k = Some (Smart.quality r) /\
                 Smart.encodeAndMeasure measure k (Smart.quality r) = Some r) /\
      Smart.passes thr r = true /\
      (forall k q, nth_error qs k = Some q -> passes_at measure thr k q = true -> (Smart.quality r <= q)%Z)
  end.
Proof.
  intros thr. unfold Smart.findOptimalQuality_traced.
  assert (Hle : (Smart.initial_min isPhoto format <= Smart.initial_max)%Z)
    by (unfold Smart.initial_min, Smart.initial_max; destruct (_ && _); lia).
  destruct (search_loop_lowest measure thr (Smart.iterations s) 0 _ _ None Hle) as [_ H].
  fold thr.
  destruct (Smart.search_loop measure thr (Smart.iterations s) 0 (Smart.initial_min isPhoto format) Smart.initial_max None) as [[r|] qs]; simpl in H.
  - destruct H as [[Hb _]|[[k [Hk [Hm Hp]]] Hlow]]; [discriminate|].
    split; [exists k; auto|]. split; [exact Hp|]. exact Hlow.
  - destruct H as [_ H]. exact H.
Qed.

Lemma sort_by_bytes_head_first (l : list Pipeline.CandidateResult) c :
  head (Pipeline.sort_by_bytes l) = Some c ->
  exists pre post, l = (pre ++ c :: post)%list /\
    Forall (fun d => (Pipeline.c_bytes c < Pipeline.c_bytes d)%Z) pre /\
    Forall (fun d => (Pipeline.c_bytes c <= Pipeline.c_bytes d)%Z) post.
Proof.
  revert c. induction l as [|a l IH]; intros c H; [discriminate|].
  unfold Pipeline.sort_by_bytes in H; simpl in H; fold (Pipeline.sort_by_bytes l) in H.
  rewrite head_insert_by_bytes in H.
  destruct (Pipeline.sort_by_bytes l) as [|d r] eqn:Hs.
  - apply sort_by_bytes_nil in Hs as ->. injection H as <-.
    exists [], []. repeat split; constructor.
  - destruct (IH d) as [pre [post [Hl [Hpre Hpost]]]]; [reflexivity|].
    destruct (Z.leb_spec (Pipeline.c_bytes a) (Pipeline.c_bytes d)) as [Hle|Hgt]; injection H as <-.
    + exists [], l. split; [reflexivity|]. split; [constructor|].
      rewrite Hl. apply Forall_app. split.
      * eapply Forall_impl; [exact Hpre|]. simpl. intros; lia.
      * constructor; [lia|]. eapply Forall_impl; [exact Hpost|]. simpl. intros; lia.
    + exists (a :: pre), post. rewrite Hl. split; [reflexivity|]. split; [constructor; [lia|exact Hpre]|exact Hpost].
Qed.

(** X17: The candidate pickBest returns is a smallest one, and the first among those of that size. *)
Theorem pickBest_first_smallest (cs : list Pipeline.CandidateResult) c :
  Pipeline.pickBest cs = Some c ->
  exists pre post, cs = (pre ++ c :: post)%list /\
    Forall (fun d => (Pipeline.c_bytes c < Pipeline.c_bytes d)%Z) pre /\
    Forall (fun d => (Pipeline.c_bytes c <= Pipeline.c_bytes d)%Z) post.
Proof.
  intros H. apply sort_by_bytes_head_first.
  destruct cs as [|a l]; [discriminate|exact H].
Qed.

Lemma pickBest_first_smallest_witness :
  Pipeline.pickBest tie_cs = Some (cand "mozjpeg q84" 30) /\
  exists pre post, tie_cs = (pre ++ cand "mozjpeg q84" 30 :: post)%list /\
    Forall (fun d => (Pipeline.c_bytes (cand "mozjpeg q84" 30) < Pipeline.c_bytes d)%Z) pre /\
    Forall (fun d => (Pipeline.c_bytes (cand "mozjpeg q84" 30) <= Pipeline.c_bytes d)%Z) post.
Proof.
  split; [reflexivity|]. apply pickBest_first_smallest. reflexivity.
Defined.

Lemma candidate_catch_thrown r e :
  Pipeline.candidate_catch r = Throw e -> includes "Missing optimizer binary" (message e) = true.
Proof.
  unfold Pipeline.candidate_catch. destruct r as [o|e']; [discriminate|].
  destruct (includes _ _) eqn:Hi; intros H; inversion H; subst; exact Hi.
Qed.

Lemma push_slot_fold_throw {X} (f : X -> Exn (option Pipeline.CandidateResult)) xs e :
  fold_left (fun acc x => Pipeline.push_slot acc (f x)) xs (Throw e) = Throw e.
Proof. induction xs as [|x xs IH]; [reflexivity|]. exact IH. Qed.

Lemma push_slot_ok_or_missing acc slot :
  (forall e, acc = Throw e -> includes "Missing optimizer binary" (message e) = true) ->
  forall e, Pipeline.push_slot acc slot = Throw e -> includes "Missing optimizer binary" (message e) = true.
Proof.
  intros Hacc e. unfold Pipeline.push_slot.
  destruct acc as [cs|e0]; simpl; [|intros H; inversion H; subst; apply Hacc; reflexivity].
  destruct (Pipeline.candidate_catch slot) as [o|e1] eqn:Hc; simpl; [discriminate|].
  intros H; inversion H; subst. eapply candidate_catch_thrown; exact Hc.
Qed.

Lemma jpeg_ladder_missing_cjpeg thr (slot : Z -> Pipeline.Attempt) :
  forall qs acc,
  (forall e, acc = Throw e -> includes "Missing optimizer binary" (message e) = true) ->
  (exists q, In q qs /\ Pipeline.found (slot q) "cjpeg" = false) ->
  missing_thrown (fold_left (fun acc q => Pipeline.push_slot acc (Pipeline.ladder_step thr (slot q) jpeg q)) qs acc).
Proof.
  induction qs as [|q qs IH]; intros acc Hacc [q0 [Hin Hf]]; [destruct Hin|].
  simpl. destruct Hin as [<-|Hin].
  - assert (Hs : Pipeline.ladder_step thr (slot q) jpeg q = Throw (Pipeline.missingBinary "cjpeg")).
    { unfold Pipeline.ladder_step, Pipeline.encodeMozjpeg, Pipeline.resolveToolPath. rewrite Hf. reflexivity. }
    rewrite Hs. unfold Pipeline.push_slot at 2.
    destruct acc as [cs|e0]; simpl.
    + rewrite push_slot_fold_throw. eexists; split; [reflexivity|reflexivity].
    + rewrite push_slot_fold_throw. exists e0. split; [reflexivity|]. apply Hacc. reflexivity.
  - apply IH; [|exists q0; auto]. apply push_slot_ok_or_missing. exact Hacc.
Qed.

(** X18: With smart compression off, a JPEG whose quality ladder hits a slot without cjpeg is skipped with a message naming the missing optimizer binary, and the job state is unchanged. *)
Theorem runOptimizeAction_missing_cjpeg opo dp rt inputPath originalBuffer s commonRoot backupDir w st :
  smartCompressionMode s = false ->
  getOutputFormatForPath inputPath = Some jpeg ->
  (exists q, In q (getJpegQualities s) /\ Pipeline.found (Actions.ladderSlot w q) "cjpeg" = false) ->
  exists reason,
    Actions.runOptimizeAction opo dp rt inputPath originalBuffer s commonRoot backupDir w st =
      (Ok (Actions.skipDecision (Z.of_nat (length originalBuffer)) reason), st) /\
    includes "Missing optimizer binary" reason = true.
Proof.
  intros Hsm Hty Hq. unfold Actions.runOptimizeAction. rewrite Hty.
  unfold Actions.build_candidates, Pipeline.buildJpegCandidates. rewrite Hsm.
  destruct (jpeg_ladder_missing_cjpeg (getSsimThreshold s) (Actions.ladderSlot w) (getJpegQualities s) (Ok []))
    as [e [He Hi]]; [intros e H; discriminate|exact Hq|].
  rewrite He. exists (message e). split; [reflexivity|exact Hi].
Qed.

Lemma runOptimizeAction_missing_cjpeg_witness :
  (smartCompressionMode Samples.settings0 = false /\
   getOutputFormatForPath "photo.jpg" = Some jpeg /\
   exists q, In q (getJpegQualities Samples.settings0) /\ Pipeline.found (Actions.ladderSlot world_no_cjpeg q) "cjpeg" = false) /\
  exists reason,
    Actions.runOptimizeAction Samples.opo0 Samples.dp0 Samples.rt0 "photo.jpg" (repeat Byte.x00 100)
      Samples.settings0 "" None world_no_cjpeg Samples.st0 =
      (Ok (Actions.skipDecision (Z.of_nat (length (repeat Byte.x00 100))) reason), Samples.st0) /\
    includes "Missing optimizer binary" reason = true.
Proof.
  assert (H1 : smartCompressionMode Samples.settings0 = false) by reflexivity.
  assert (H2 : getOutputFormatForPath "photo.jpg" = Some jpeg) by reflexivity.
  assert (H3 : exists q, In q (getJpegQualities Samples.settings0) /\
                 Pipeline.found (Actions.ladderSlot world_no_cjpeg q) "cjpeg" = false)
    by (exists 80%Z; split; [simpl; auto 10|reflexivity]).
  split; [auto|]. apply (runOptimizeAction_missing_cjpeg Samples.opo0 Samples.dp0 Samples.rt0); assumption.
Defined.

Lemma fold_on_response_failed mode (respond : string -> Run.WorkerResponse) (l : list string) c :
  (Run.converted c + Run.failed c <= Run.done c)%nat ->
  let c' := fold_left (fun c p => Run.on_response mode c (respond p)) l c in
  Run.failed c' = (Run.failed c + length (List.filter is_failed_response (map respond l)))%nat /\
  (Run.converted c' + Run.failed c' <= Run.done c')%nat.
Proof.
  revert c. induction l as [|p l IH]; intros c Hc; simpl; [lia|].
  destruct (IH (Run.on_response mode c (respond p))) as [H1 H2].
  - unfold Run.on_response. destruct (respond p); simpl; [lia|].
    destruct (Actions.is_success _); simpl; lia.
  - split; [|exact H2]. rewrite H1. unfold Run.on_response.
    destruct (respond p); simpl; lia.
Qed.

Lemma fold_on_cancelled_keeps (l : list string) c :
  let c' := fold_left (fun c _ => Run.on_cancelled c) l c in
  Run.failed c' = Run.failed c /\ Run.converted c' = Run.converted c /\
  Run.done c' = (Run.done c + length l)%nat /\ Run.skipped c' = (Run.skipped c + length l)%nat /\
  Run.totalOriginalBytes c' = Run.totalOriginalBytes c /\ Run.totalOutputBytes c' = Run.totalOutputBytes c.
Proof.
  revert c. induction l as [|p l IH]; intros c; simpl; [lia|].
  destruct (IH (Run.on_cancelled c)) as (H1 & H2 & H3 & H4 & H5 & H6). simpl in *. lia.
Qed.

(** X19: The failed count of a run is the number of worker responses that report a failure, and converted plus failed never exceeds processed. *)
Theorem executeRun_failed_counts_worker_failures mode resolved respond stop :
  let taken := match stop with None => resolved | Some k => firstn k resolved end in
  let sm := Run.executeRun mode resolved respond stop in
  Run.failedFiles sm = length (List.filter is_failed_response (map respond taken)) /\
  (Run.convertedFiles sm + Run.failedFiles sm <= Run.processedFiles sm)%nat.
Proof.
  intros taken. unfold Run.executeRun. fold taken.
  destruct (fold_on_response_failed mode respond taken Run.counters0 ltac:(simpl; lia)) as [F1 S1].
  set (c1 := fold_left (fun c p => Run.on_response mode c (respond p)) taken Run.counters0) in *.
  destruct stop as [k|]; simpl.
  - destruct (fold_on_cancelled_keeps (skipn (length taken) resolved) c1) as (G1 & G2 & G3 & _).
    rewrite G1, G2, G3, F1. simpl. lia.
  - rewrite F1. simpl. split; [reflexivity|]. simpl in F1. lia.
Qed.

(** X20: A run cancelled before any file starts counts every file as processed and skipped, none as failed or converted, and all byte totals as zero. *)
Theorem executeRun_cancelled_before_start mode resolved respond :
  let sm := Run.executeRun mode resolved respond (Some 0%nat) in
  Run.skippedFiles sm = Run.totalFiles sm /\ Run.processedFiles sm = Run.totalFiles sm /\
  Run.failedFiles sm = 0%nat /\ Run.convertedFiles sm = 0%nat /\
  Run.s_totalOriginalBytes sm = 0%Z /\ Run.s_totalOutputBytes sm = 0%Z /\ Run.totalSavedBytes sm = 0%Z.
Proof.
  unfold Run.executeRun. rewrite firstn_O. cbn [length skipn fold_left Run.totalFiles Run.processedFiles Run.skippedFiles Run.failedFiles Run.convertedFiles Run.s_totalOriginalBytes Run.s_totalOutputBytes Run.totalSavedBytes].
  destruct (fold_on_cancelled_keeps resolved Run.counters0) as (G1 & G2 & G3 & G4 & G5 & G6).
  change (skipn 0 resolved) with resolved. rewrite G1, G2, G3, G4, G5, G6. simpl. repeat split; lia.
Qed.

(** * main.ts: [restoreLastRun] *)

Section RestoreRoundTrip.
Variables (bd ip : string) (orig : bytes).
Local Abbreviation bp := (Actions.createBackupFilePath bd ip).

Lemma ensureBackup_rinv io st r st' :
  Actions.ensureBackup bd ip io st = (r, st') ->
  rinv ip bp orig st -> rinvC ip orig st ->
  rinv ip bp orig st' /\ (forall x, r = Ok x -> Actions.records st' <> []) /\
  (Actions.records st' = [] -> st' = st).
Proof.
  intros H Hi HC. pose proof Hi as [HA [HB HD]].
  assert (Hcopy : Actions.records st = [] -> Actions.ensureBackup_copy bd ip io st = (r, st') ->
                  rinv ip bp orig st' /\ (forall x, r = Ok x -> Actions.records st' <> []) /\
                  (Actions.records st' = [] -> st' = st)).
  { intros Hnil Hc. unfold Actions.ensureBackup_copy in Hc.
    destruct io as [e|]; [inversion Hc; subst; split; [split; auto|split; [discriminate|auto]]|].
    destruct (Actions.files st !! ip) as [b|] eqn:Hf;
      [|inversion Hc; subst; split; [split; auto|split; [discriminate|auto]]].
    rewrite (HC Hnil) in Hf. injection Hf as <-.
    inversion Hc; subst; clear Hc. rewrite Hnil. simpl.
    split; [|split; [intros ? ? Hx; discriminate|intros Hx; discriminate]].
    unfold rinv; simpl. split; [|split].
    - constructor; [|constructor]. split; [reflexivity|]. split; [reflexivity|]. discriminate.
    - intros _. rewrite lookup_insert_eq. reflexivity.
    - split; [|intros _; discriminate]. intros _. exists bp.
      rewrite lookup_insert_eq. split; [reflexivity|apply createBackupFilePath_ne]. }
  unfold Actions.ensureBackup in H.
  destruct (Actions.cache st !! ip) as [existing|] eqn:Hc.
  - destruct (String.eqb existing "") eqn:He.
    + apply String.eqb_eq in He. subst existing. apply Hcopy; [|exact H].
      destruct (Actions.records st) as [|x l] eqn:Hr; [reflexivity|].
      destruct (proj1 HD ltac:(discriminate)) as (p & Hp & Hne). congruence.
    + inversion H; subst. split; [exact Hi|]. split; [|reflexivity].
      intros x0 _. apply HD. exists existing. split; [reflexivity|]. apply String.eqb_neq. exact He.
  - apply Hcopy; [|exact H].
    destruct (Actions.records st) as [|x l] eqn:Hr; [reflexivity|].
    destruct (proj1 HD ltac:(discriminate)) as (p & Hp & Hne). congruence.
Qed.

Lemma backup_step_rinv msg w st r st' :
  Actions.backup_step (Some bd) msg ip w st = (r, st') ->
  rinv ip bp orig st -> rinvC ip orig st ->
  rinv ip bp orig st' /\ rinvC ip orig st' /\ (forall x, r = Ok x -> Actions.records st' <> []).
Proof.
  unfold Actions.backup_step. intros H Hi HC.
  destruct (Actions.ensureBackup bd ip (Actions.backupIO w) st) as [r0 st0] eqn:E.
  destruct (ensureBackup_rinv _ _ _ _ E Hi HC) as (Hi' & Hok & Hst).
  assert (HC' : rinvC ip orig st0) by (intros Hn; rewrite (Hst Hn); exact (HC (eq_trans (f_equal Actions.records (eq_sym (Hst Hn))) Hn))).
  destruct r0 as [x|e]; inversion H; subst; (split; [exact Hi'|split; [exact HC'|]]).
  - intros _ _. exact (Hok x eq_refl).
  - intros x' Hx'. discriminate.
Qed.

Lemma writeValidatedAtomic_rinv target buf io st r st' :
  target <> bp ->
  Actions.writeValidatedAtomic target buf io st = (r, st') ->
  rinv ip bp orig st -> rinv ip bp orig st' /\ Actions.records st' = Actions.records st.
Proof.
  unfold Actions.writeValidatedAtomic. intros Hne H [HA [HB HD]].
  destruct io as [e|]; inversion H; subst; [split; [split; auto|reflexivity]|].
  simpl. split; [|reflexivity]. split; [exact HA|]. split; [|exact HD].
  intros Hn. simpl in *. rewrite lookup_insert_ne by congruence. apply HB, Hn.
Qed.

Section WithTemplate.
Variable rt : string -> Actions.Applied -> string -> bool -> Exn string.
Hypothesis rt_not_bp : forall b c d, rt ip b c d <> Ok bp.

Lemma finish_action_path s ob ap before_write w st d p st' :
  Actions.finish_action rt s ip ob ap before_write w st = (Ok (d, p), st') -> p <> bp.
Proof.
  unfold Actions.finish_action. intros H.
  destruct (shouldSkipIfLarger _ _ _).
  { inversion H; subst. intros Hp. apply (createBackupFilePath_ne bd ip). symmetry. exact Hp. }
  destruct (rt _ _ _ _) as [q|e] eqn:Hrt; [|discriminate].
  destruct (before_write st) as [[u|e] st1]; [|discriminate].
  destruct (Actions.writeValidatedAtomic _ _ _ st1) as [[u'|e] st2]; [|discriminate].
  inversion H; subst. intros ->. exact (rt_not_bp _ _ _ Hrt).
Qed.

Lemma finish_action_rinv_backup s ob ap msg w st r st' :
  Actions.finish_action rt s ip ob ap (Actions.backup_step (Some bd) msg ip w) w st = (r, st') ->
  rinv ip bp orig st -> rinvC ip orig st -> rinv ip bp orig st' /\ rinvC ip orig st'.
Proof.
  unfold Actions.finish_action. intros H Hi HC.
  destruct (shouldSkipIfLarger _ _ _); [inversion H; subst; auto|].
  destruct (rt _ _ _ _) as [q|e] eqn:Hrt; [|inversion H; subst; auto].
  destruct (Actions.backup_step (Some bd) msg ip w st) as [[u|e] st1] eqn:E1.
  - destruct (backup_step_rinv _ _ _ _ _ E1 Hi HC) as (Hi1 & HC1 & Hne).
    specialize (Hne u eq_refl).
    assert (Hq : q <> bp) by (intros ->; exact (rt_not_bp _ _ _ Hrt)).
    destruct (Actions.writeValidatedAtomic q _ _ st1) as [[u'|e] st2] eqn:E2;
      inversion H; subst; destruct (writeValidatedAtomic_rinv _ _ _ _ _ _ Hq E2 Hi1) as [Hi2 Hr2];
      (split; [exact Hi2|intros Hn; rewrite Hr2 in Hn; contradiction]).
  - destruct (backup_step_rinv _ _ _ _ _ E1 Hi HC) as (Hi1 & HC1 & _).
    inversion H; subst. auto.
Qed.

Lemma finish_action_rinv_noop s ob ap w st r st' :
  Actions.finish_action rt s ip ob ap (fun st0 => (Ok tt, st0)) w st = (r, st') ->
  rinv ip bp orig st -> rinv ip bp orig st'.
Proof.
  unfold Actions.finish_action. intros H Hi.
  destruct (shouldSkipIfLarger _ _ _); [inversion H; subst; auto|].
  destruct (rt _ _ _ _) as [q|e] eqn:Hrt; [|inversion H; subst; auto].
  assert (Hq : q <> bp) by (intros ->; exact (rt_not_bp _ _ _ Hrt)).
  destruct (Actions.writeValidatedAtomic q _ _ st) as [[u'|e] st2] eqn:E2;
    inversion H; subst; exact (proj1 (writeValidatedAtomic_rinv _ _ _ _ _ _ Hq E2 Hi)).
Qed.

Lemma runOptimizeAction_rinv opo dp buf s cr w st r st' :
  outputMode s = replace ->
  Actions.runOptimizeAction opo dp rt ip buf s cr (Some bd) w st = (r, st') ->
  rinv ip bp orig st -> rinvC ip orig st -> rinv ip bp orig st' /\ rinvC ip orig st'.
Proof.
  intros Hm H Hi HC. unfold Actions.runOptimizeAction in H.
  destruct (getOutputFormatForPath ip) as [type|]; [|inversion H; subst; auto].
  destruct (Actions.build_candidates s type w) as [cs|e]; [|inversion H; subst; auto].
  destruct (_ && _); [inversion H; subst; auto|].
  destruct (Pipeline.pickBest cs) as [best|]; [|inversion H; subst; auto].
  destruct (Actions.applyExportPreset _ _ _ _ _ _) as [applied|e]; [|inversion H; subst; auto].
  rewrite Hm in H.
  destruct (Actions.finish_action _ _ _ _ _ _ _ _) as [[[d p]|e] st2] eqn:E;
    inversion H; subst; eapply finish_action_rinv_backup; eassumption.
Qed.

Lemma mark_remove_on_restore_rec_ok t rs :
  t <> bp -> Forall (rec_ok ip bp) rs -> Forall (rec_ok ip bp) (Actions.mark_remove_on_restore ip t rs).
Proof.
  intros Ht. induction 1 as [|r rs Hr Hrs IH]; simpl; [constructor|].
  destruct (String.eqb (Actions.originalPath r) ip); constructor; auto.
  destruct Hr as (H1 & H2 & _). split; [exact H1|]. split; [exact H2|].
  simpl. intros t' Ht'. injection Ht' as <-. exact Ht.
Qed.

Lemma mark_remove_on_restore_nil t rs :
  Actions.mark_remove_on_restore ip t rs = [] <-> rs = [].
Proof.
  destruct rs as [|r rs]; simpl; [tauto|].
  destruct (String.eqb _ _); split; discriminate.
Qed.

Lemma runWebpAction_rinv opw dp buf s cr w st r st' :
  Actions.runWebpAction opw dp rt ip buf s cr (Some bd) w st = (r, st') ->
  rinv ip bp orig st -> rinvC ip orig st -> rinv ip bp orig st'.
Proof.
  intros H Hi HC. unfold Actions.runWebpAction in H.
  destruct (getOutputFormatForPath ip) as [type|]; [|inversion H; subst; auto].
  destruct (_ && _); [inversion H; subst; auto|].
  destruct (Pipeline.buildWebpCandidates _ _ _) as [cs|e]; [|inversion H; subst; auto].
  destruct (Pipeline.pickBest cs) as [best|]; [|inversion H; subst; auto].
  set (dr := negb (Actions.is_subfolder (outputMode s)) && replaceWithWebp s
             && confirmDangerousWebpReplace s) in H.
  assert (Hst1 : forall rb st1,
            (if dr then Actions.backup_step (Some bd) "Backup directory required for dangerous replace mode" ip w st
             else (Ok tt, st)) = (rb, st1) -> rinv ip bp orig st1).
  { intros rb st1 E. destruct dr; [|inversion E; subst; exact Hi].
    exact (proj1 (backup_step_rinv _ _ _ _ _ E Hi HC)). }
  destruct (if dr then _ else _) as [rb st1] eqn:E1. specialize (Hst1 _ _ eq_refl).
  destruct rb as [u|e]; [|inversion H; subst; exact Hst1].
  destruct (Actions.applyExportPreset _ _ _ _ _ _) as [applied|e]; [|inversion H; subst; exact Hst1].
  destruct (Actions.finish_action _ _ _ _ _ _ _ _) as [[[d p]|e] st2] eqn:E2.
  - pose proof (finish_action_rinv_noop _ _ _ _ _ _ _ E2 Hst1) as Hst2.
    pose proof (finish_action_path _ _ _ _ _ _ _ _ _ E2) as Hp.
    destruct (Actions.ad_status d); cbn iota beta in H; try (inversion H; subst; exact Hst2).
    destruct (dr && deleteOriginalAfterWebp s); [|inversion H; subst; exact Hst2].
    destruct Hst2 as (HA & HB & HD).
    assert (HA' := mark_remove_on_restore_rec_ok p _ Hp HA).
    assert (Hn := mark_remove_on_restore_nil p (Actions.records st2)).
    destruct (Actions.rmIO w); inversion H; subst; unfold rinv; simpl;
      (split; [exact HA'|split]).
    + intros Hne. apply HB. intros Hr. apply Hne, Hn, Hr.
    + rewrite <- HD. split; intros Hne Hr; apply Hne; [apply Hn, Hr|apply Hn, Hr].
    + intros Hne. rewrite lookup_delete_ne by (intros Heq; apply (createBackupFilePath_ne_orig bd ip); symmetry; exact Heq). apply HB.
      intros Hr. apply Hne, Hn, Hr.
    + rewrite <- HD. split; intros Hne Hr; apply Hne; [apply Hn, Hr|apply Hn, Hr].
  - inversion H; subst. eapply finish_action_rinv_noop; eassumption.
Qed.

Lemma processFile_rinv opo opw dp s cr wOpt wWebp fs r fs' :
  outputMode s = replace ->
  fs !! ip = Some orig ->
  Actions.processFile opo opw dp rt ip s cr (Some bd) wOpt wWebp fs = (Ok r, fs') ->
  Forall (rec_ok ip bp) (Actions.backups r) /\
  (Actions.backups r <> [] -> fs' !! bp = Some orig).
Proof.
  unfold Actions.processFile. intros Hm Hf H. rewrite Hf in H.
  set (st0 := {| Actions.cache := ∅; Actions.records := []; Actions.files := fs |}) in H.
  assert (H0 : rinv ip bp orig st0).
  { split; [constructor|]. split; [intros Hn; contradiction Hn; reflexivity|].
    simpl. rewrite lookup_empty. split; [intros Hn; contradiction Hn; reflexivity|].
    intros (p & Hp & _). discriminate. }
  assert (HC0 : rinvC ip orig st0) by (intros _; exact Hf).
  destruct (if shouldOptimizeOriginal (runMode s) then _ else _) as [r1 st1] eqn:E1.
  assert (H1 : rinv ip bp orig st1 /\ rinvC ip orig st1).
  { destruct (shouldOptimizeOriginal (runMode s)); [|inversion E1; subst; auto].
    destruct (Actions.runOptimizeAction opo dp rt ip orig s cr (Some bd) wOpt st0) as [[d|e] st'] eqn:E;
      inversion E1; subst; eapply runOptimizeAction_rinv; eassumption. }
  destruct H1 as [H1 HC1].
  destruct r1 as [opt|e]; [|discriminate].
  destruct (if shouldCreateWebp (runMode s) then _ else _) as [r2 st2] eqn:E2.
  assert (H2 : rinv ip bp orig st2).
  { destruct (shouldCreateWebp (runMode s)); [|inversion E2; subst; exact H1].
    destruct (Actions.runWebpAction opw dp rt ip orig s cr (Some bd) wWebp st1) as [[d|e] st'] eqn:E;
      inversion E2; subst; eapply runWebpAction_rinv; eassumption. }
  destruct r2 as [wb|e]; [|discriminate].
  inversion H; subst. simpl. destruct H2 as (HA & HB & _). split; assumption.
Qed.

End WithTemplate.
End RestoreRoundTrip.

Lemma restore_record_ok w rec fs b :
  (forall p, Restore.rm_io w p = None) ->
  (forall p q, Restore.copy_io w p q = None) ->
  (forall p q, Restore.rename_io w p q = None) ->
  (forall t, Actions.removeOnRestore rec = Some t -> t <> Actions.backupPath rec) ->
  fs !! Actions.backupPath rec = Some b ->
  exists fs', Restore.restore_record w rec fs = (true, fs') /\ fs' !! Actions.originalPath rec = Some b.
Proof.
  intros Hrm Hcp Hrn Ht Hb. unfold Restore.restore_record.
  assert (Hrem : exists fs1, (match Actions.removeOnRestore rec with
            | Some t => if String.eqb t "" then Ok fs
                        else match Restore.rm_io w t with Some e => Throw e | None => Ok (delete t fs) end
            | None => Ok fs end) = Ok fs1 /\ fs1 !! Actions.backupPath rec = Some b).
  { destruct (Actions.removeOnRestore rec) as [t|] eqn:Hr; [|eauto].
    destruct (String.eqb t ""); [eauto|]. rewrite Hrm. eexists; split; [reflexivity|].
    rewrite lookup_delete_ne by (intros Heq; exact (Ht t eq_refl Heq)). exact Hb. }
  destruct Hrem as (fs1 & -> & Hb1).
  rewrite Hcp, Hb1, Hrn. eexists; split; [reflexivity|]. apply lookup_insert_eq.
Qed.

(** X21: After a replace-mode job that recorded backups, restoring the last run with working file operations restores one file, fails none, and puts the original contents back at the input path. *)
Theorem restoreLastRun_undoes_replace_run opo opw dp rt ip s cr bd wOpt wWebp fs orig r fs' w rid lp :
  outputMode s = replace ->
  fs !! ip = Some orig ->
  (forall a c d, rt ip a c d <> Ok (Actions.createBackupFilePath bd ip)) ->
  Actions.processFile opo opw dp rt ip s cr (Some bd) wOpt wWebp fs = (Ok r, fs') ->
  Actions.backups r <> [] ->
  (forall p, Restore.rm_io w p = None) ->
  (forall p q, Restore.copy_io w p q = None) ->
  (forall p q, Restore.rename_io w p q = None) ->
  let state := {| Restore.runId := rid; Restore.lr_backupDir := Some bd;
                  Restore.backupRecords := Actions.backups r; Restore.logPath := lp |} in
  let '(res, fs'') := Restore.restoreLastRun (Some state) w fs' in
  res = (1%nat, 0%nat, "Restore finished. Restored 1 file(s), failed 0.") /\ fs'' !! ip = Some orig.
Proof.
  intros Hm Hf Hrt Hp Hne Hrm Hcp Hrn state.
  destruct (processFile_rinv bd ip orig rt Hrt opo opw dp s cr wOpt wWebp fs r fs' Hm Hf Hp) as [HA HB].
  specialize (HB Hne).
  pose proof (processFile_backups_inv _ _ _ _ _ _ _ _ _ _ _ _ _ Hp) as Hnd.
  unfold Restore.restoreLastRun. subst state. cbn [Restore.backupRecords].
  destruct (Actions.backups r) as [|rec [|rec2 rest]] eqn:Hb; [contradiction Hne; reflexivity| |].
  - inversion HA as [|? ? Hrec _]; subst. destruct Hrec as (Ho & Hbp & Ht).
    rewrite <- Hbp in HB, Ht.
    destruct (restore_record_ok w rec fs' orig Hrm Hcp Hrn Ht HB) as (fs'' & Hr & Hl).
    simpl. rewrite Hr. simpl. split; [reflexivity|]. rewrite <- Ho. exact Hl.
  - exfalso. inversion HA as [|? ? H1 HA2]; subst. inversion HA2 as [|? ? H2 _]; subst.
    simpl in Hnd. destruct H1 as (H1 & _), H2 as (H2 & _). rewrite H1, H2 in Hnd.
    apply NoDup_cons in Hnd as [Hnin _]. apply Hnin. left.
Qed.

Lemma restoreLastRun_undoes_replace_run_witness :
  Actions.backups replace_result <> [] /\
  replace_files !! "photo.jpg" <> Some (repeat Byte.x00 100) /\
  let state := {| Restore.runId := "run-1"; Restore.lr_backupDir := Some "bk";
                  Restore.backupRecords := Actions.backups replace_result; Restore.logPath := "run.log" |} in
  let '(res, fs'') := Restore.restoreLastRun (Some state) restore_io_ok replace_files in
  res = (1%nat, 0%nat, "Restore finished. Restored 1 file(s), failed 0.") /\
  fs'' !! "photo.jpg" = Some (repeat Byte.x00 100).
Proof.
  split; [vm_compute; discriminate|]. split; [vm_compute; discriminate|].
  apply (restoreLastRun_undoes_replace_run Samples.opo0 opw0 Samples.dp0 rt_in_place "photo.jpg"
           settings_replace "" "bk" Samples.world0 Samples.world0 photo_fs).
  - reflexivity.
  - reflexivity.
  - intros a c d H. inversion H.
  - vm_compute. reflexivity.
  - vm_compute. discriminate.
  - reflexivity.
  - reflexivity.
  - reflexivity.
Defined.

Lemma restore_loop_counts w rs : forall restored failed fs,
  let '(r', f', _) := Restore.restore_loop w rs restored failed fs in
  (r' + f' = restored + failed + length rs)%nat.
Proof.
  induction rs as [|rec rs IH]; intros restored failed fs; simpl; [lia|].
  destruct (Restore.restore_record w rec fs) as [[|] fs1].
  - specialize (IH (S restored) failed fs1).
    destruct (Restore.restore_loop w rs (S restored) failed fs1) as [[r' f'] fs2]. lia.
  - specialize (IH restored (S failed) fs1).
    destruct (Restore.restore_loop w rs restored (S failed) fs1) as [[r' f'] fs2]. lia.
Qed.

(** X22: Restoring the last run counts every backup record either as restored or as failed. *)
Theorem restoreLastRun_counts_every_record state w fs :
  let '((restored, failed, _), _) := Restore.restoreLastRun state w fs in
  (restored + failed)%nat = match state with Some st => length (Restore.backupRecords st) | None => 0%nat end.
Proof.
  unfold Restore.restoreLastRun. destruct state as [st|]; [|reflexivity].
  destruct (Restore.backupRecords st) as [|rec rs] eqn:Hr; [reflexivity|].
  pose proof (restore_loop_counts w (rec :: rs) 0 0 fs) as H.
  destruct (Restore.restore_loop w (rec :: rs) 0 0 fs) as [[r' f'] fs']. simpl in H. simpl. lia.
Qed.

Lemma to_lower_length s : String.length (to_lower s) = String.length s.
Proof. induction s as [|c s IH]; simpl; [reflexivity|]. rewrite IH. reflexivity. Qed.

Lemma to_lower_app a b : to_lower (a ++ b) = (to_lower a ++ to_lower b)%string.
Proof. induction a as [|c a IH]; simpl; [reflexivity|]. rewrite IH. reflexivity. Qed.

Lemma substring_app_r x y k : substring (String.length x) k (x ++ y) = substring 0 k y.
Proof. induction x as [|c x IH]; simpl; [reflexivity|]. exact IH. Qed.

Lemma substring_full y : substring 0 (String.length y) y = y.
Proof. induction y as [|c y IH]; simpl; [reflexivity|]. rewrite IH. reflexivity. Qed.

Lemma ends_with_app x s : ends_with s (x ++ s) = true.
Proof.
  unfold ends_with. rewrite string_length_app.
  replace (String.length x + String.length s - String.length s)%nat with (String.length x) by lia.
  rewrite substring_app_r, substring_full, String.eqb_refl.
  apply andb_true_intro. split; [apply Nat.leb_le; lia|reflexivity].
Qed.

Lemma substring_prefix m p : String.prefix (substring 0 m p) p = true.
Proof.
  revert m. induction p as [|c p IH]; intros [|m]; simpl; try reflexivity.
  destruct (Ascii.ascii_dec c c) as [_|n]; [apply IH|contradiction n; reflexivity].
Qed.

Lemma substring_length m p : (m <= String.length p)%nat -> String.length (substring 0 m p) = m.
Proof.
  revert m. induction p as [|c p IH]; intros [|m] Hm; simpl in *; try reflexivity; [lia|].
  rewrite IH by lia. reflexivity.
Qed.

Lemma ends_with_length suffix s : ends_with suffix s = true -> (String.length suffix <= String.length s)%nat.
Proof. unfold ends_with. intros H. apply andb_prop in H as [H _]. apply Nat.leb_le, H. Qed.

(** X23: A path ending in .tif or .tiff, in any case, gets its extension replaced by .jpg, keeping the rest of the path, and the new path is a JPEG output path. *)
Theorem replace_tif_ext_gives_jpg p :
  (ends_with ".tif" (to_lower p) || ends_with ".tiff" (to_lower p)) = true ->
  exists stem,
    Actions.replace_tif_ext p = (stem ++ ".jpg")%string /\
    String.prefix stem p = true /\
    (String.length p - String.length stem = 4 \/ String.length p - String.length stem = 5)%nat /\
    getOutputFormatForPath (Actions.replace_tif_ext p) = Some jpeg.
Proof.
  intros H.
  assert (Hjpg : forall stem, getOutputFormatForPath (stem ++ ".jpg") = Some jpeg).
  { intros stem. unfold getOutputFormatForPath. rewrite to_lower_app. simpl (to_lower ".jpg").
    rewrite ends_with_app. reflexivity. }
  unfold Actions.replace_tif_ext.
  destruct (ends_with ".tiff" (to_lower p)) eqn:H5.
  - exists (substring 0 (String.length p - 5) p). apply ends_with_length in H5.
    rewrite to_lower_length in H5. simpl in H5.
    split; [reflexivity|]. split; [apply substring_prefix|].
    rewrite substring_length by lia. split; [lia|apply Hjpg].
  - rewrite orb_false_r in H. rewrite H.
    exists (substring 0 (String.length p - 4) p). apply ends_with_length in H.
    rewrite to_lower_length in H. simpl in H.
    split; [reflexivity|]. split; [apply substring_prefix|].
    rewrite substring_length by lia. split; [lia|apply Hjpg].
Qed.

Lemma replace_tif_ext_gives_jpg_witness :
  (ends_with ".tif" (to_lower "scans/Page.TIFF") || ends_with ".tiff" (to_lower "scans/Page.TIFF")) = true /\
  exists stem,
    Actions.replace_tif_ext "scans/Page.TIFF" = (stem ++ ".jpg")%string /\
    String.prefix stem "scans/Page.TIFF" = true /\
    (String.length "scans/Page.TIFF" - String.length stem = 4 \/
     String.length "scans/Page.TIFF" - String.length stem = 5)%nat /\
    getOutputFormatForPath (Actions.replace_tif_ext "scans/Page.TIFF") = Some jpeg.
Proof. split; [reflexivity|]. apply replace_tif_ext_gives_jpg. reflexivity. Defined.

Lemma shouldIgnorePath_generated_paths_witness :
  includes "/Optimized/" "in/Optimized/a.jpg" = true /\
  ends_with ".crdownload" (to_lower "in/photo.JPG.CRDOWNLOAD") = true /\
  WatchFilter.shouldIgnorePath "in/Optimized/a.jpg" = true /\
  WatchFilter.shouldIgnorePath "in/photo.JPG.CRDOWNLOAD" = true.
Proof.
  split; [reflexivity|]. split; [reflexivity|]. split.
  - apply shouldIgnorePath_generated_paths. left. reflexivity.
  - apply shouldIgnorePath_generated_paths. right; right; right; right; left. reflexivity.
Defined.
